(** * godev: the Go backend's store, cache and persistence adapter

    A shallow embedding of [go-backend/internal/model], [internal/store]
    (store.go, persistence.go) and [internal/cache] (cache.go), followed
    by the properties of the specification that concern them; then of
    [internal/validator], the rate limiter of [internal/middleware] and the
    user, task and statistics handlers of [internal/handler], with further
    properties of the code.

    Conventions.
    - Go's [int] and [int64] are 64-bit: values are in [Z] and every
      arithmetic result goes through [wrap].  [len] of a slice is the
      list's length (a Go slice's length always fits an [int]).
    - A Go [string] is a [string]; comparison is [String.eqb].
    - A method on [*Store] is a computation in the monad [M]: it reads and
      writes the store and leaves a trace of the events that matter to the
      specification: operations on [s.mu], [go] statements, system calls
      and log lines.  A [defer]red call is emitted when the body is done.
    - Operating-system and JSON results are read from a [World]; what
      the handlers ask of Go's library (trimming, the regular expression,
      decoding a body, the clock) is read from a [Lib].
    - A handler is a computation on the handler's store and cache and the
      response writer; requests are served one after another. *)

From stdpp Require Import gmap strings list fin_maps.
From Stdlib Require Import ZArith Lia Sorted.

Local Open Scope Z_scope.

(** ** Go integers *)

Module goint.

Definition max_int : Z := 2 ^ 63 - 1.
Definition min_int : Z := - 2 ^ 63.

(** Two's complement wrap-around of a 64-bit signed integer. *)
Definition wrap (z : Z) : Z := (z + 2 ^ 63) mod 2 ^ 64 - 2 ^ 63.

Definition in_range (z : Z) : Prop := min_int <= z <= max_int.

End goint.

(** ** package model *)

Module model.

Module User.
Record t : Type := mk { ID : Z; Name : string; Email : string; Role : string }.
End User.

Module Task.
Record t : Type := mk { ID : Z; Title : string; Status : string; UserID : Z }.
Definition with_Title (v : string) (x : t) : t := mk (ID x) v (Status x) (UserID x).
Definition with_Status (v : string) (x : t) : t := mk (ID x) (Title x) v (UserID x).
Definition with_UserID (v : Z) (x : t) : t := mk (ID x) (Title x) (Status x) v.
End Task.

Abbreviation User := User.t.
Abbreviation Task := Task.t.

(** [StatsResponse], its two anonymous structs flattened. *)
Module StatsResponse.
Record t : Type := mk {
  Users_Total : Z;
  Tasks_Total : Z;
  Tasks_Pending : Z;
  Tasks_InProgress : Z;
  Tasks_Completed : Z }.
Definition zero : t := mk 0 0 0 0 0.
Definition set_Users_Total (v : Z) (x : t) : t :=
  mk v (Tasks_Total x) (Tasks_Pending x) (Tasks_InProgress x) (Tasks_Completed x).
Definition set_Tasks_Total (v : Z) (x : t) : t :=
  mk (Users_Total x) v (Tasks_Pending x) (Tasks_InProgress x) (Tasks_Completed x).
Definition incr_Pending (x : t) : t :=
  mk (Users_Total x) (Tasks_Total x) (goint.wrap (Tasks_Pending x + 1))
     (Tasks_InProgress x) (Tasks_Completed x).
Definition incr_InProgress (x : t) : t :=
  mk (Users_Total x) (Tasks_Total x) (Tasks_Pending x)
     (goint.wrap (Tasks_InProgress x + 1)) (Tasks_Completed x).
Definition incr_Completed (x : t) : t :=
  mk (Users_Total x) (Tasks_Total x) (Tasks_Pending x) (Tasks_InProgress x)
     (goint.wrap (Tasks_Completed x + 1)).
End StatsResponse.

Abbreviation StatsResponse := StatsResponse.t.

End model.

Import model.

(** [len] of a slice. *)
Definition len {A : Type} (l : list A) : Z := Z.of_nat (length l).

(** ** strconv.Atoi

    Go's library function, from its documented behaviour: an optional sign,
    then one or more decimal digits and nothing else; a value outside the
    [int] range is an error. *)

Module strconv.

Definition digit (c : Ascii.ascii) : option Z :=
  let n := Z.of_N (Ascii.N_of_ascii c) in
  if (48 <=? n) && (n <=? 57) then Some (n - 48) else None.

Fixpoint digits (acc : Z) (s : string) : option Z :=
  match s with
  | EmptyString => Some acc
  | String c r =>
      match digit c with
      | Some d => digits (acc * 10 + d) r
      | None => None
      end
  end.

Definition unsigned (s : string) : option Z :=
  match s with
  | EmptyString => None
  | _ => digits 0 s
  end.

Definition plus_sign : Ascii.ascii := Ascii.ascii_of_N 43.
Definition minus_sign : Ascii.ascii := Ascii.ascii_of_N 45.

Definition signed (s : string) : option Z :=
  match s with
  | EmptyString => None
  | String c r =>
      if Ascii.eqb c minus_sign then Z.opp <$> unsigned r
      else if Ascii.eqb c plus_sign then unsigned r
      else unsigned s
  end.

Definition Atoi (s : string) : option Z :=
  match signed s with
  | Some n => if (goint.min_int <=? n) && (n <=? goint.max_int) then Some n else None
  | None => None
  end.

End strconv.

(** ** Events and the world outside the process *)

Definition bytes : Type := list Byte.byte.

(** What a [go] statement starts. *)
Inductive goroutine : Type := go_persistAsync | go_cleanupExpired.

Inductive syscall : Type :=
| SysStat (name : string)
| SysReadFile (name : string)
| SysMkdirAll (dir : string)
| SysWriteFile (name : string) (data : bytes)
| SysRename (oldpath newpath : string)
| SysRemove (name : string).

Inductive event : Type :=
| Lock | Unlock | RLock | RUnlock
| Go (g : goroutine)
| Sys (c : syscall)
| LogPrintf.

(** The errors [LoadData] and [SaveData] wrap, by their message. *)
Inductive error : Type :=
| failed_to_read_data_file
| failed_to_parse_data_file
| failed_to_create_data_directory
| failed_to_marshal_data
| failed_to_write_data_file
| failed_to_rename_data_file.

(** [PersistentData]: what the JSON file holds. *)
Module PersistentData.
Record t : Type := mk { Users : list User; Tasks : list Task }.
End PersistentData.

(** What the operating system and encoding/json answer: [true] and [Some]
    are a nil error. *)
Record World : Type := {
  Stat_IsNotExist : string -> bool;
  ReadFile : string -> option bytes;
  MkdirAll : string -> bool;
  WriteFile : string -> bytes -> bool;
  Rename : string -> string -> bool;
  Unmarshal : bytes -> option PersistentData.t;
  MarshalIndent : PersistentData.t -> option bytes }.

(** Package-level functions: a result and the events they leave. *)
Definition IO (A : Type) : Type := A * list event.

Definition io_ret {A} (a : A) : IO A := (a, []).
Definition io_bind {A B} (m : IO A) (k : A -> IO B) : IO B :=
  let '(a, tr1) := m in let '(b, tr2) := k a in (b, tr1 ++ tr2).
Definition io_emit (e : event) : IO unit := (tt, [e]).

#[global] Instance IO_ret : MRet IO := @io_ret.
#[global] Instance IO_bind : MBind IO := fun A B k m => io_bind m k.

(** ** package store: store.go *)

Module store.

(** [Store]; its [mu] shows as the events [Lock], [Unlock], [RLock] and
    [RUnlock]. *)
Record Store : Type := mkStore { users : list User; tasks : list Task }.

(** A method on [*Store]: result, store afterwards, events. *)
Definition M (A : Type) : Type := Store -> A * Store * list event.

Definition ret {A} (a : A) : M A := fun s => (a, s, []).
Definition bind {A B} (m : M A) (k : A -> M B) : M B :=
  fun s =>
    let '(a, s1, tr1) := m s in
    let '(b, s2, tr2) := k a s1 in
    (b, s2, tr1 ++ tr2).

#[global] Instance M_ret : MRet M := @ret.
#[global] Instance M_bind : MBind M := fun A B k m => bind m k.

Definition get : M Store := fun s => (s, s, []).
Definition put (s' : Store) : M unit := fun _ => (tt, s', []).
Definition emit (e : event) : M unit := fun s => (tt, s, [e]).
Definition lift {A} (m : IO A) : M A := fun s => (m.1, s, m.2).

(** [defer f()] as the first statement after which [body] is the rest of
    the function: [e] happens when [body] has returned. *)
Definition defer {A} (e : event) (body : M A) : M A :=
  fun s => let '(a, s1, tr) := body s in (a, s1, tr ++ [e]).

Definition result {A} (r : A * Store * list event) : A := r.1.1.
Definition after {A} (r : A * Store * list event) : Store := r.1.2.
Definition events {A} (r : A * Store * list event) : list event := r.2.

(** A pointer [&s.users[i]] or [&s.tasks[i]]: the index and the element
    found there when the pointer was taken. *)
Definition ref (A : Type) : Type := nat * A.

Definition New : Store := mkStore [] [].

Definition NewWithData (users : list User) (tasks : list Task) : Store :=
  mkStore users tasks.

Definition GetUsers : M (list User) :=
  emit RLock;;
  defer RUnlock (
    s ← get;
    mret (users s)).

Definition GetUserByID (id : Z) : M (option (ref User)) :=
  emit RLock;;
  defer RUnlock (
    s ← get;
    mret (list_find (λ u, User.ID u = id) (users s))).

Definition UserExistsByEmail (email : string) : M bool :=
  emit RLock;;
  defer RUnlock (
    s ← get;
    mret (existsb (λ user, String.eqb (User.Email user) email) (users s))).

Definition CreateUser (name email role : string) : M User :=
  emit Lock;;
  defer Unlock (
    s ← get;
    let maxID :=
      fold_left (λ maxID user, if User.ID user >? maxID then User.ID user else maxID)
                (users s) 0 in
    let newUser := User.mk (goint.wrap (maxID + 1)) name email role in
    put (mkStore (users s ++ [newUser]) (tasks s));;
    emit (Go go_persistAsync);;
    mret newUser).

Definition GetTasks (status userID : string) : M (list Task) :=
  emit RLock;;
  defer RUnlock (
    s ← get;
    mret (fold_left
            (λ filtered task,
               let matchStatus :=
                 String.eqb status "" || String.eqb (Task.Status task) status in
               let matchUserID :=
                 if negb (String.eqb userID "") then
                   match strconv.Atoi userID with
                   | Some id => Task.UserID task =? id
                   | None => false
                   end
                 else true in
               if matchStatus && matchUserID then filtered ++ [task] else filtered)
            (tasks s) [])).

Definition GetTaskByID (id : Z) : M (option (ref Task)) :=
  emit RLock;;
  defer RUnlock (
    s ← get;
    mret (list_find (λ t, Task.ID t = id) (tasks s))).

Definition CreateTask (title status : string) (userID : Z) : M Task :=
  emit Lock;;
  defer Unlock (
    s ← get;
    let maxID :=
      fold_left (λ maxID task, if Task.ID task >? maxID then Task.ID task else maxID)
                (tasks s) 0 in
    let newTask := Task.mk (goint.wrap (maxID + 1)) title status userID in
    put (mkStore (users s) (tasks s ++ [newTask]));;
    emit (Go go_persistAsync);;
    mret newTask).

(** [s.tasks[i].F = v] for a field setter [f]. *)
Definition set_task (i : nat) (f : Task -> Task) : M unit :=
  s ← get;
  put (mkStore (users s) (alter f i (tasks s))).

(** A nil pointer argument is [None]. *)
Definition UpdateTask (id : Z) (title status : option string) (userID : option Z)
  : M (option (ref Task)) :=
  emit Lock;;
  defer Unlock (
    s ← get;
    match list_find (λ t, Task.ID t = id) (tasks s) with
    | Some (i, _) =>
        (match title with Some v => set_task i (Task.with_Title v) | None => mret tt end);;
        (match status with Some v => set_task i (Task.with_Status v) | None => mret tt end);;
        (match userID with Some v => set_task i (Task.with_UserID v) | None => mret tt end);;
        emit (Go go_persistAsync);;
        s' ← get;
        mret (pair i <$> tasks s' !! i)
    | None => mret None
    end).

Definition GetStats : M StatsResponse :=
  emit RLock;;
  defer RUnlock (
    s ← get;
    let stats := StatsResponse.zero in
    let stats := StatsResponse.set_Users_Total (len (users s)) stats in
    let stats := StatsResponse.set_Tasks_Total (len (tasks s)) stats in
    mret (fold_left
            (λ stats task,
               if String.eqb (Task.Status task) "pending" then
                 StatsResponse.incr_Pending stats
               else if String.eqb (Task.Status task) "in-progress" then
                 StatsResponse.incr_InProgress stats
               else if String.eqb (Task.Status task) "completed" then
                 StatsResponse.incr_Completed stats
               else stats)
            (tasks s) stats)).

(** *** persistence.go *)

Definition dataFilePath : string := "data/data.json".
(** [filepath.Dir(dataFilePath)] *)
Definition dataFileDir : string := "data".

Definition LoadData (w : World) : IO (PersistentData.t + error) :=
  io_emit (Sys (SysStat dataFilePath));;
  if Stat_IsNotExist w dataFilePath then mret (inl (PersistentData.mk [] []))
  else
    io_emit (Sys (SysReadFile dataFilePath));;
    match ReadFile w dataFilePath with
    | None => mret (inr failed_to_read_data_file)
    | Some data =>
        match Unmarshal w data with
        | None => mret (inr failed_to_parse_data_file)
        | Some persistentData => mret (inl persistentData)
        end
    end.

Definition SaveData (w : World) (data : PersistentData.t) : IO (option error) :=
  let dir := dataFileDir in
  io_emit (Sys (SysMkdirAll dir));;
  if negb (MkdirAll w dir) then mret (Some failed_to_create_data_directory)
  else
    match MarshalIndent w data with
    | None => mret (Some failed_to_marshal_data)
    | Some jsonData =>
        let tempFile := dataFilePath +:+ ".tmp" in
        io_emit (Sys (SysWriteFile tempFile jsonData));;
        if negb (WriteFile w tempFile jsonData) then mret (Some failed_to_write_data_file)
        else
          io_emit (Sys (SysRename tempFile dataFilePath));;
          if negb (Rename w tempFile dataFilePath) then
            io_emit (Sys (SysRemove tempFile));;
            mret (Some failed_to_rename_data_file)
          else mret None
    end.

Definition defaultStore : Store :=
  NewWithData
    [ User.mk 1 "John Doe" "john@example.com" "developer";
      User.mk 2 "Jane Smith" "jane@example.com" "designer";
      User.mk 3 "Bob Johnson" "bob@example.com" "manager" ]
    [ Task.mk 1 "Implement authentication" "pending" 1;
      Task.mk 2 "Design user interface" "in-progress" 2;
      Task.mk 3 "Review code changes" "completed" 3 ].

Definition Initialize (w : World) : IO Store :=
  r ← LoadData w;
  match r with
  | inr _ =>
      io_emit LogPrintf;;
      mret defaultStore
  | inl persistentData =>
      if (len (PersistentData.Users persistentData) =? 0)
         && (len (PersistentData.Tasks persistentData) =? 0)
      then mret defaultStore
      else mret (NewWithData (PersistentData.Users persistentData)
                             (PersistentData.Tasks persistentData))
  end.

Definition Persist (w : World) : M (option error) :=
  emit RLock;;
  defer RUnlock (
    s ← get;
    let data := PersistentData.mk (users s) (tasks s) in
    lift (SaveData w data)).

(** The body of the goroutine that [go s.persistAsync()] starts. *)
Definition persistAsync (w : World) : M unit :=
  err ← Persist w;
  match err with
  | Some _ => emit LogPrintf
  | None => mret tt
  end.

End store.

(** *** Sequences of creations *)

Module calls.
Import store.

Inductive call : Type :=
| callCreateUser (name email role : string)
| callCreateTask (title status : string) (userID : Z).

Inductive reply : Type :=
| replyUser (u : User)
| replyTask (t : Task).

Definition perform (c : call) : M reply :=
  match c with
  | callCreateUser name email role =>
      u ← CreateUser name email role; mret (replyUser u)
  | callCreateTask title status userID =>
      t ← CreateTask title status userID; mret (replyTask t)
  end.

Fixpoint run (cs : list call) : M (list reply) :=
  match cs with
  | [] => mret []
  | c :: cs' => r ← perform c; rs ← run cs'; mret (r :: rs)
  end.

(** The identifiers a sequence of replies assigned, per collection. *)
Definition assigned_user_ids (rs : list reply) : list Z :=
  omap (λ r, match r with replyUser u => Some (User.ID u) | replyTask _ => None end) rs.
Definition assigned_task_ids (rs : list reply) : list Z :=
  omap (λ r, match r with replyTask t => Some (Task.ID t) | replyUser _ => None end) rs.

Definition is_user_call (c : call) : bool :=
  match c with callCreateUser _ _ _ => true | callCreateTask _ _ _ => false end.
Definition is_task_call (c : call) : bool :=
  match c with callCreateTask _ _ _ => true | callCreateUser _ _ _ => false end.

(** How many calls of a sequence create a user, and how many a task. *)
Definition user_calls (cs : list call) : Z := len (List.filter is_user_call cs).
Definition task_calls (cs : list call) : Z := len (List.filter is_task_call cs).

End calls.

(** *** The state of [s.mu] along a trace *)

Module mutex.

(** How many read locks are held, and whether the write lock is. *)
Record state : Type := mk { readers : nat; writer : bool }.

Definition free : state := mk 0 false.

Definition step (st : state) (e : event) : state :=
  match e with
  | Lock => mk (readers st) true
  | Unlock => mk (readers st) false
  | RLock => mk (S (readers st)) (writer st)
  | RUnlock => mk (Nat.pred (readers st)) (writer st)
  | _ => st
  end.

Definition is_free (st : state) : bool := Nat.eqb (readers st) 0 && negb (writer st).
Definition read_held (st : state) : bool := negb (Nat.eqb (readers st) 0).

(** Every system call of the trace satisfies [ok] of the lock state it is
    made in. *)
Fixpoint syscalls_when (ok : state -> bool) (st : state) (tr : list event) : bool :=
  match tr with
  | [] => true
  | e :: tr' =>
      (match e with Sys _ => ok st | _ => true end)
      && syscalls_when ok (step st e) tr'
  end.

(** No system call while [s.mu] is held. *)
Definition no_io_under_lock (tr : list event) : bool := syscalls_when is_free free tr.
(** Every system call is made with the read lock held. *)
Definition all_io_under_rlock (tr : list event) : bool := syscalls_when read_held free tr.

Definition is_syscall (e : event) : bool :=
  match e with Sys _ => true | _ => false end.

End mutex.

(** ** package cache: cache.go *)

Module cache.

(** Instants and durations in nanoseconds.  A method reads the clock once;
    its reading is the argument [now]. *)
Definition Time : Type := Z.
Definition Duration : Type := Z.
Definition After (t u : Time) : bool := t >? u.
Definition Add (t : Time) (d : Duration) : Time := t + d.

Section cache.
(** The [interface{}] values the cache holds. *)
Context {V : Type}.

Record Entry : Type := mkEntry { Data : V; ExpiresAt : Time }.

(** [hits] and [misses] are [atomic.Int64]. *)
Record Cache : Type := mkCache {
  entries : gmap string Entry;
  ttl : Duration;
  hits : Z;
  misses : Z }.

Definition add_hit (c : Cache) : Cache :=
  mkCache (entries c) (ttl c) (goint.wrap (hits c + 1)) (misses c).
Definition add_miss (c : Cache) : Cache :=
  mkCache (entries c) (ttl c) (hits c) (goint.wrap (misses c + 1)).
Definition set_entries (m : gmap string Entry) (c : Cache) : Cache :=
  mkCache m (ttl c) (hits c) (misses c).

Definition New (ttl : Duration) : Cache := mkCache ∅ ttl 0 0.

(** [(nil, false)] is [(None, false)]. *)
Definition Get (now : Time) (key : string) (c : Cache) : (option V * bool) * Cache :=
  match entries c !! key with
  | None => ((None, false), add_miss c)
  | Some entry =>
      if After now (ExpiresAt entry) then ((None, false), add_miss c)
      else ((Some (Data entry), true), add_hit c)
  end.

Definition Set_ (now : Time) (key : string) (data : V) (c : Cache) : Cache :=
  set_entries (<[key := mkEntry data (Add now (ttl c))]> (entries c)) c.

Definition Invalidate (keys : list string) (c : Cache) : Cache :=
  set_entries (fold_left (λ m key, delete key m) keys (entries c)) c.

Definition InvalidateAll (c : Cache) : Cache := set_entries ∅ c.

(** One tick of [cleanupExpired]. *)
Definition cleanupExpired_tick (now : Time) (c : Cache) : Cache :=
  set_entries (filter (λ kv, After now (ExpiresAt kv.2) = false) (entries c)) c.

End cache.

Arguments Entry : clear implicits.
Arguments Cache : clear implicits.

Definition UsersKey : string := "users".
Definition TasksKey (status userID : string) : string :=
  "tasks:" +:+ status +:+ ":" +:+ userID.
Definition StatsKey : string := "stats".

End cache.

(** ** What the read methods hand out

    [GetUsers] returns [s.users], a slice header over the store's own
    backing array; [GetUserByID] and [GetTaskByID] return [&s.users[i]] and
    [&s.tasks[i]], addresses inside it.  Here the backing arrays live in a
    heap, and a caller can load and store through what it was handed. *)

Module alias.

(** The address of a backing array. *)
Definition loc : Type := nat.

Record Heap : Type := mkHeap {
  user_arrays : gmap loc (list User);
  task_arrays : gmap loc (list Task) }.

(** A slice header (offset 0): the array and [len]. *)
Record slice : Type := mkSlice { array : loc; slen : nat }.

(** [&a[i]]. *)
Record pointer : Type := mkPointer { base : loc; index : nat }.

(** The struct behind a [*Store]. *)
Record Store : Type := mkStore { users : slice; tasks : slice }.

(** The elements a slice shows. *)
Definition elems {A} (arrays : gmap loc (list A)) (sl : slice) : list A :=
  take (slen sl) (default [] (arrays !! array sl)).

(** [NewWithData] keeps the slices it is given. *)
Definition NewWithData (users tasks : slice) : Store := mkStore users tasks.

Definition GetUsers (h : Heap) (s : Store) : slice := users s.

Definition GetUserByID (h : Heap) (s : Store) (id : Z) : option pointer :=
  (λ r : nat * User, mkPointer (array (users s)) r.1)
    <$> list_find (λ u, User.ID u = id) (elems (user_arrays h) (users s)).

Definition GetTaskByID (h : Heap) (s : Store) (id : Z) : option pointer :=
  (λ r : nat * Task, mkPointer (array (tasks s)) r.1)
    <$> list_find (λ t, Task.ID t = id) (elems (task_arrays h) (tasks s)).

(** What a caller can do with a slice or a pointer: [&sl[i]] (a panic out
    of range is [None]), [*p] and [*p = v]. *)
Definition at_index (sl : slice) (i : nat) : option pointer :=
  if decide (i < slen sl)%nat then Some (mkPointer (array sl) i) else None.

Definition load_user (h : Heap) (p : pointer) : option User :=
  user_arrays h !! base p ≫= λ a, a !! index p.
Definition load_task (h : Heap) (p : pointer) : option Task :=
  task_arrays h !! base p ≫= λ a, a !! index p.

Definition store_user (h : Heap) (p : pointer) (v : User) : Heap :=
  mkHeap (alter (λ a, <[index p := v]> a) (base p) (user_arrays h)) (task_arrays h).
Definition store_task (h : Heap) (p : pointer) (v : Task) : Heap :=
  mkHeap (user_arrays h) (alter (λ a, <[index p := v]> a) (base p) (task_arrays h)).

(** The collections of a store, read from the heap: the [Store] the
    methods of [store] work on. *)
Definition contents (h : Heap) (s : Store) : store.Store :=
  store.mkStore (elems (user_arrays h) (users s)) (elems (task_arrays h) (tasks s)).

End alias.

(** ** The specification's words *)

Module spec.

(** "max(existing identifiers in collection) + 1, starting from 1 for an
    empty collection". *)
Definition next_id (ids : list Z) : Z :=
  match ids with
  | [] => 1
  | x :: r => foldr Z.max x r + 1
  end.

(** A task matches both filters; an absent or empty filter matches all, a
    user-id filter that does not parse matches nothing. *)
Definition task_matches (status userID : string) (t : Task) : Prop :=
  (status = "" ∨ Task.Status t = status)
  ∧ (userID = "" ∨ strconv.Atoi userID = Some (Task.UserID t)).

(** The number of tasks whose status is exactly [st]. *)
Definition count_status (st : string) (ts : list Task) : Z :=
  len (filter (λ t, Task.Status t = st) ts).

(** The closed enumeration of statuses. *)
Definition valid_status (t : Task) : Prop :=
  Task.Status t = "pending" ∨ Task.Status t = "in-progress" ∨ Task.Status t = "completed".

(** "Only supplied fields are overwritten, others retain prior value." *)
Definition updated (title status : option string) (userID : option Z) (t : Task) : Task :=
  Task.mk (Task.ID t) (default (Task.Title t) title) (default (Task.Status t) status)
          (default (Task.UserID t) userID).

End spec.

(** The identifiers of a collection. *)
Definition user_ids (s : store.Store) : list Z := User.ID <$> store.users s.
Definition task_ids (s : store.Store) : list Z := Task.ID <$> store.tasks s.

(** The collection with the identifiers [ids] can take [n] creations:
    it is empty or holds a non-negative identifier, and neither an
    identifier of it nor [n] itself passes the largest [int] when [n] is
    added. *)
Definition ids_fit (ids : list Z) (n : Z) : Prop :=
  n <= goint.max_int
  ∧ Forall (λ x, x + n <= goint.max_int) ids
  ∧ (ids = [] ∨ Exists (λ x, 0 <= x) ids).

(** ** Sample worlds and heaps *)

Module examples.

(** First run: no data file; every system call succeeds. *)
Definition first_run : World := {|
  Stat_IsNotExist := λ _, true;
  ReadFile := λ _, None;
  MkdirAll := λ _, true;
  WriteFile := λ _ _, true;
  Rename := λ _ _, true;
  Unmarshal := λ _, None;
  MarshalIndent := λ _, Some [] |}.

(** A data file that decodes to [d]; every system call succeeds. *)
Definition saved (d : PersistentData.t) : World := {|
  Stat_IsNotExist := λ _, false;
  ReadFile := λ _, Some [];
  MkdirAll := λ _, true;
  WriteFile := λ _ _, true;
  Rename := λ _ _, true;
  Unmarshal := λ _, Some d;
  MarshalIndent := λ _, Some [] |}.

(** A data file that does not decode. *)
Definition corrupt : World := {|
  Stat_IsNotExist := λ _, false;
  ReadFile := λ _, Some [];
  MkdirAll := λ _, true;
  WriteFile := λ _ _, true;
  Rename := λ _ _, true;
  Unmarshal := λ _, None;
  MarshalIndent := λ _, Some [] |}.

Definition one_task : PersistentData.t :=
  PersistentData.mk [] [Task.mk 7 "Write report" "pending" 1].

Definition john : User := User.mk 1 "John Doe" "john@example.com" "developer".
Definition mallory : User := User.mk 1 "Mallory" "mallory@example.com" "admin".
Definition task1 : Task := Task.mk 1 "Implement authentication" "pending" 1.

(** A store of one user and one task, their backing arrays at address 0
    of each kind. *)
Definition heap1 : alias.Heap := alias.mkHeap {[ 0%nat := [john] ]} {[ 0%nat := [task1] ]}.
Definition store1 : alias.Store :=
  alias.NewWithData (alias.mkSlice 0%nat 1%nat) (alias.mkSlice 0%nat 1%nat).

End examples.

(** [maxID] after the loop of [CreateUser] and [CreateTask] over a
    collection with the identifiers [ids], started at [a]. *)
Definition loop_maxID (ids : list Z) (a : Z) : Z :=
  fold_left (λ maxID x, if x >? maxID then x else maxID) ids a.

(** Unfolds the monads of a method applied to a store. *)
Ltac run_method :=
  unfold store.result, store.after, store.events;
  cbv [mbind mret store.M_bind store.M_ret store.bind store.ret store.get store.put
       store.emit store.defer store.lift store.set_task
       IO_bind IO_ret io_bind io_ret io_emit];
  cbn [fst snd app].

(** ** package validator: [Status] *)

Module validator.

Definition validStatuses : gmap string bool :=
  {[ "pending" := true; "in-progress" := true; "completed" := true ]}.

(** Indexing a map with a key it lacks gives the zero value, [false]. *)
Definition Status (status : string) : bool :=
  default false (validStatuses !! status).

End validator.

(** Whether a string holds the byte [':'], the separator of [TasksKey]. *)
Fixpoint has_colon (s : string) : bool :=
  match s with
  | EmptyString => false
  | String c r => Ascii.eqb c (Ascii.ascii_of_N 58) || has_colon r
  end.

(** ** The files behind the system calls

    [World] says how each system call answers; this says what the calls
    do to the files, so that what [SaveData] leaves can be read back by
    [LoadData]. *)

Module fs.

Section fs.
(** What a failed write leaves of the file (nothing, or some bytes). *)
Variable torn : string → bytes → option bytes.

(** The effect of one system call, given the answer [w] gave it.  A
    rename moves the content and replaces the target; [os.Remove] (whose
    error [SaveData] ignores) is taken to remove the file. *)
Definition step (w : World) (f : gmap string bytes) (c : syscall) : gmap string bytes :=
  match c with
  | SysStat _ | SysReadFile _ | SysMkdirAll _ => f
  | SysWriteFile name data =>
      if WriteFile w name data then <[name := data]> f
      else match torn name data with
           | Some d => <[name := d]> f
           | None => delete name f
           end
  | SysRename oldpath newpath =>
      if Rename w oldpath newpath then
        match f !! oldpath with
        | Some d => <[newpath := d]> (delete oldpath f)
        | None => f
        end
      else f
  | SysRemove name => delete name f
  end.

(** The files after the system calls of a trace. *)
Definition run (w : World) (f : gmap string bytes) (tr : list event) : gmap string bytes :=
  fold_left (λ f e, match e with Sys c => step w f c | _ => f end) tr f.

End fs.


End fs.

(** ** package middleware: ratelimit.go *)

Module middleware.

(** [RateLimiter]; its [mu] is held for the whole of [Allow] and of each
    tick of [cleanup].  The clock reading of a call is its argument
    [now]. *)
Record RateLimiter : Type := mkRateLimiter {
  requests : gmap string (list cache.Time);
  limit : Z;
  window : cache.Duration }.

Definition set_requests (m : gmap string (list cache.Time)) (rl : RateLimiter)
  : RateLimiter :=
  mkRateLimiter m (limit rl) (window rl).

Definition NewRateLimiter (limit : Z) (window : cache.Duration) : RateLimiter :=
  mkRateLimiter ∅ limit window.

(** [now.Add(-rl.window)] *)
Definition windowStart (rl : RateLimiter) (now : cache.Time) : cache.Time :=
  cache.Add now (goint.wrap (- window rl)).

(** The loop that keeps the request times after [windowStart]. *)
Definition validRequests (windowStart : cache.Time) (requests : list cache.Time)
  : list cache.Time :=
  fold_left
    (λ validRequests reqTime,
       if cache.After reqTime windowStart then validRequests ++ [reqTime]
       else validRequests)
    requests [].

Definition Allow (now : cache.Time) (ip : string) (rl : RateLimiter)
  : (bool * Z) * RateLimiter :=
  let windowStart := windowStart rl now in
  let requests := default [] (requests rl !! ip) in
  let validRequests := validRequests windowStart requests in
  if len validRequests >=? limit rl then
    ((false, 0), set_requests (<[ip := validRequests]> (middleware.requests rl)) rl)
  else
    let validRequests := validRequests ++ [now] in
    ((true, goint.wrap (limit rl - len validRequests)),
     set_requests (<[ip := validRequests]> (middleware.requests rl)) rl).


(** A sequence of requests, each with its clock reading and client. *)
Fixpoint serve (reqs : list (cache.Time * string)) (rl : RateLimiter)
  : list bool * RateLimiter :=
  match reqs with
  | [] => ([], rl)
  | (now, ip) :: reqs' =>
      let r := Allow now ip rl in
      let rs := serve reqs' r.2 in
      (r.1.1 :: rs.1, rs.2)
  end.

(** The times of the requests of [ip] that were allowed. *)
Definition admitted (ip : string) (reqs : list (cache.Time * string)) (oks : list bool)
  : list cache.Time :=
  omap (λ x : cache.Time * string * bool,
          if x.2 && String.eqb x.1.2 ip then Some x.1.1 else None)
       (zip reqs oks).

End middleware.

(** The limiter remembers enough: at any time from [T] on, the stored
    request times of each client that are still in the window are the
    admitted ones [A] that are. *)
Definition remembers (rl : middleware.RateLimiter) (A : string → list cache.Time)
    (T : cache.Time) : Prop :=
  ∀ ip t, T <= t →
    filter (λ x, middleware.windowStart rl t < x) (default [] (middleware.requests rl !! ip))
    = filter (λ x, middleware.windowStart rl t < x) (A ip).

(** ** package validator: [NonEmpty] and [Email]; package handler

    The handlers call into Go's library for [strings.TrimSpace], for
    matching a compiled regular expression, for decoding a JSON request
    body and for the clock.  What these answer is read from a [Lib]; the
    [n]-th reading of the clock is [clock n]. *)

Module CreateUserRequest.
Record t : Type := mk { Name : string; Email : string; Role : string }.
End CreateUserRequest.

Module CreateTaskRequest.
Record t : Type := mk { Title : string; Status : string; UserID : Z }.
End CreateTaskRequest.

(** A nil pointer field is [None]. *)
Module UpdateTaskRequest.
Record t : Type := mk {
  Title : option string; Status : option string; UserID : option Z }.
End UpdateTaskRequest.

Record Lib : Type := {
  TrimSpace : string → string;
  MatchString : string → string → bool;
  DecodeCreateUserRequest : bytes → option CreateUserRequest.t;
  DecodeCreateTaskRequest : bytes → option CreateTaskRequest.t;
  DecodeUpdateTaskRequest : bytes → option UpdateTaskRequest.t;
  clock : nat → cache.Time }.

Module validators.

(** The pattern [emailRegex] is compiled from. *)
Definition emailPattern : string :=
  "^[a-zA-Z0-9._%+-]+@[a-zA-Z0-9.-]+\.[a-zA-Z]{2,}$".

Definition Email (lib : Lib) (email : string) : bool :=
  MatchString lib emailPattern email.

Definition NonEmpty (lib : Lib) (s : string) : bool :=
  negb (String.eqb (TrimSpace lib s) "").

End validators.

Module handler.

(** The values the handlers encode as JSON and keep in the cache. *)
Inductive value : Type :=
| UsersResponse (Users : list User) (Count : Z)
| TasksResponse (Tasks : list Task) (Count : Z)
| Stats (stats : StatsResponse)
| AUser (user : User)
| ATask (task : Task)
| Null
| ErrorResponse (Success : bool) (Error : string) (Code : string).

Inductive written : Type :=
| JSON (v : value)
| Text (s : string).

(** An [http.ResponseWriter]: the header map, the status code once it is
    written, and what was written to the body. *)
Record ResponseWriter : Type := mkResponseWriter {
  Header : gmap string string;
  Code : option Z;
  Body : list written }.

Definition newResponseWriter : ResponseWriter := mkResponseWriter ∅ None [].

(** An [*http.Request], as far as the handlers read it: [Query] is
    [r.URL.Query().Get]. *)
Record Request : Type := mkRequest {
  Method : string;
  Path : string;
  Query : string → string;
  ReqBody : bytes }.

Definition StatusOK : Z := 200.
Definition StatusCreated : Z := 201.
Definition StatusBadRequest : Z := 400.
Definition StatusNotFound : Z := 404.
Definition StatusMethodNotAllowed : Z := 405.

(** What a handler works on: the [Handler]'s store and cache, the number
    of clock readings so far, the events of the store methods, and the
    response writer. *)
Record state : Type := mkState {
  st : store.Store;
  ca : cache.Cache value;
  reads : nat;
  evs : list event;
  w : ResponseWriter }.

Definition H (A : Type) : Type := state → A * state.

Definition ret {A} (a : A) : H A := λ σ, (a, σ).
Definition bind {A B} (m : H A) (k : A → H B) : H B :=
  λ σ, let '(a, σ1) := m σ in k a σ1.

#[global] Instance H_ret : MRet H := @ret.
#[global] Instance H_bind : MBind H := λ A B k m, bind m k.

(** A method of [h.store]. *)
Definition on_store {A} (m : store.M A) : H A :=
  λ σ, let '(a, s', tr) := m (st σ) in
       (a, mkState s' (ca σ) (reads σ) (evs σ ++ tr) (w σ)).

(** [time.Now()] *)
Definition Now (lib : Lib) : H cache.Time :=
  λ σ, (clock lib (reads σ), mkState (st σ) (ca σ) (S (reads σ)) (evs σ) (w σ)).

(** The methods of [h.cache]; [Get] and [Set] read the clock. *)
Definition on_cache {A} (f : cache.Cache value → A * cache.Cache value) : H A :=
  λ σ, let r := f (ca σ) in (r.1, mkState (st σ) r.2 (reads σ) (evs σ) (w σ)).

Definition cache_Get (lib : Lib) (key : string) : H (option value * bool) :=
  now ← Now lib;
  on_cache (cache.Get now key).

Definition cache_Set (lib : Lib) (key : string) (data : value) : H unit :=
  now ← Now lib;
  on_cache (λ c, (tt, cache.Set_ now key data c)).

Definition cache_Invalidate (keys : list string) : H unit :=
  on_cache (λ c, (tt, cache.Invalidate keys c)).

Definition cache_InvalidateAll : H unit :=
  on_cache (λ c, (tt, cache.InvalidateAll c)).

(** The response writer: [w.Header().Set], [w.WriteHeader] (the first
    call decides the status), [json.NewEncoder(w).Encode] (a write sends
    status 200 if none was written) and [http.Error]. *)
Definition on_w (f : ResponseWriter → ResponseWriter) : H unit :=
  λ σ, (tt, mkState (st σ) (ca σ) (reads σ) (evs σ) (f (w σ))).

Definition Header_Set (k v : string) : H unit :=
  on_w (λ w, mkResponseWriter (<[k := v]> (Header w)) (Code w) (Body w)).

Definition WriteHeader (code : Z) : H unit :=
  on_w (λ w, mkResponseWriter (Header w)
               (Some (default code (Code w))) (Body w)).

Definition Write (x : written) : H unit :=
  on_w (λ w, mkResponseWriter (Header w)
               (Some (default StatusOK (Code w))) (Body w ++ [x])).

Definition Encode (v : value) : H unit := Write (JSON v).

Definition http_Error (error : string) (code : Z) : H unit :=
  on_w (λ w, mkResponseWriter (delete "Content-Length" (Header w)) (Code w) (Body w));;
  Header_Set "Content-Type" "text/plain; charset=utf-8";;
  Header_Set "X-Content-Type-Options" "nosniff";;
  WriteHeader code;;
  Write (Text error).

(** [strings.TrimPrefix] *)
Fixpoint TrimPrefix_aux (s prefix : string) : option string :=
  match prefix with
  | EmptyString => Some s
  | String p prefix' =>
      match s with
      | String c s' => if Ascii.eqb c p then TrimPrefix_aux s' prefix' else None
      | EmptyString => None
      end
  end.
Definition TrimPrefix (s prefix : string) : string :=
  default s (TrimPrefix_aux s prefix).

(** A pointer to a record, encoded: the record, or [null]. *)
Definition user_ptr (p : option (store.ref User)) : value :=
  match p with Some (_, u) => AUser u | None => Null end.
Definition task_ptr (p : option (store.ref Task)) : value :=
  match p with Some (_, t) => ATask t | None => Null end.

Definition writeJSON (status : Z) (data : value) : H unit :=
  Header_Set "Content-Type" "application/json";;
  Header_Set "Access-Control-Allow-Origin" "*";;
  WriteHeader status;;
  Encode data.

Definition writeError (status : Z) (message code : string) : H unit :=
  let response := ErrorResponse false message code in
  writeJSON status response.

Definition handleCORS : H unit :=
  Header_Set "Access-Control-Allow-Origin" "*";;
  Header_Set "Access-Control-Allow-Methods" "GET, POST, PUT, DELETE, OPTIONS";;
  Header_Set "Access-Control-Allow-Headers" "Content-Type";;
  WriteHeader StatusOK.

Definition InvalidateUserCaches : H unit :=
  cache_Invalidate [cache.UsersKey];;
  cache_Invalidate [cache.StatsKey].

Definition InvalidateTaskCaches : H unit := cache_InvalidateAll.

(** *** users.go *)

Definition listUsers (lib : Lib) (r : Request) : H unit :=
  let cacheKey := cache.UsersKey in
  '(cached, found) ← cache_Get lib cacheKey;
  if found : bool then Encode (default Null cached)
  else
    users ← on_store store.GetUsers;
    let response := UsersResponse users (len users) in
    cache_Set lib cacheKey response;;
    Encode response.

Definition createUser (lib : Lib) (r : Request) : H unit :=
  match DecodeCreateUserRequest lib (ReqBody r) with
  | None => writeError StatusBadRequest "Invalid JSON format" "INVALID_JSON"
  | Some req =>
      if negb (validators.NonEmpty lib (CreateUserRequest.Name req)) then
        writeError StatusBadRequest "Name is required and cannot be empty" "INVALID_NAME"
      else if negb (validators.NonEmpty lib (CreateUserRequest.Email req)) then
        writeError StatusBadRequest "Email is required and cannot be empty" "INVALID_EMAIL"
      else if negb (validators.Email lib (CreateUserRequest.Email req)) then
        writeError StatusBadRequest "Invalid email format" "INVALID_EMAIL_FORMAT"
      else if negb (validators.NonEmpty lib (CreateUserRequest.Role req)) then
        writeError StatusBadRequest "Role is required and cannot be empty" "INVALID_ROLE"
      else
        exists_ ← on_store (store.UserExistsByEmail (CreateUserRequest.Email req));
        if exists_ : bool then
          writeError StatusBadRequest "Email already exists" "EMAIL_EXISTS"
        else
          user ← on_store (store.CreateUser (CreateUserRequest.Name req)
                             (CreateUserRequest.Email req) (CreateUserRequest.Role req));
          InvalidateUserCaches;;
          writeJSON StatusCreated (AUser user)
  end.

Definition handleUsers (lib : Lib) (r : Request) : H unit :=
  Header_Set "Content-Type" "application/json";;
  Header_Set "Access-Control-Allow-Origin" "*";;
  if String.eqb (Method r) "GET" then listUsers lib r
  else if String.eqb (Method r) "POST" then createUser lib r
  else if String.eqb (Method r) "OPTIONS" then handleCORS
  else writeError StatusMethodNotAllowed "Method not allowed" "METHOD_NOT_ALLOWED".

Definition handleUserByID (lib : Lib) (r : Request) : H unit :=
  if negb (String.eqb (Method r) "GET") then
    http_Error "Method not allowed" StatusMethodNotAllowed
  else
    let path := TrimPrefix (Path r) "/api/users/" in
    match strconv.Atoi path with
    | None => http_Error "Invalid user ID" StatusBadRequest
    | Some id =>
        user ← on_store (store.GetUserByID id);
        match user with
        | None => http_Error "User not found" StatusNotFound
        | Some _ =>
            Header_Set "Content-Type" "application/json";;
            Header_Set "Access-Control-Allow-Origin" "*";;
            Encode (user_ptr user)
        end
    end.

(** *** tasks.go *)

Definition listTasks (lib : Lib) (r : Request) : H unit :=
  let status := Query r "status" in
  let userID := Query r "userId" in
  let cacheKey := cache.TasksKey status userID in
  '(cached, found) ← cache_Get lib cacheKey;
  if found : bool then Encode (default Null cached)
  else
    tasks ← on_store (store.GetTasks status userID);
    let response := TasksResponse tasks (len tasks) in
    cache_Set lib cacheKey response;;
    Encode response.

Definition createTask (lib : Lib) (r : Request) : H unit :=
  match DecodeCreateTaskRequest lib (ReqBody r) with
  | None => writeError StatusBadRequest "Invalid JSON format" "INVALID_JSON"
  | Some req =>
      if negb (validators.NonEmpty lib (CreateTaskRequest.Title req)) then
        writeError StatusBadRequest "Title is required and cannot be empty" "INVALID_TITLE"
      else if negb (validator.Status (CreateTaskRequest.Status req)) then
        writeError StatusBadRequest
          "Invalid status. Must be one of: pending, in-progress, completed" "INVALID_STATUS"
      else
        user ← on_store (store.GetUserByID (CreateTaskRequest.UserID req));
        match user with
        | None => writeError StatusBadRequest "User ID does not exist" "INVALID_USER_ID"
        | Some _ =>
            task ← on_store (store.CreateTask (CreateTaskRequest.Title req)
                               (CreateTaskRequest.Status req) (CreateTaskRequest.UserID req));
            InvalidateTaskCaches;;
            writeJSON StatusCreated (ATask task)
        end
  end.

Definition handleTasks (lib : Lib) (r : Request) : H unit :=
  Header_Set "Content-Type" "application/json";;
  Header_Set "Access-Control-Allow-Origin" "*";;
  if String.eqb (Method r) "GET" then listTasks lib r
  else if String.eqb (Method r) "POST" then createTask lib r
  else if String.eqb (Method r) "OPTIONS" then handleCORS
  else writeError StatusMethodNotAllowed "Method not allowed" "METHOD_NOT_ALLOWED".

Definition getTaskByID (r : Request) (id : Z) : H unit :=
  task ← on_store (store.GetTaskByID id);
  match task with
  | None => writeError StatusNotFound "Task not found" "TASK_NOT_FOUND"
  | Some _ => writeJSON StatusOK (task_ptr task)
  end.

Definition updateTask (lib : Lib) (r : Request) (id : Z) : H unit :=
  found ← on_store (store.GetTaskByID id);
  match found with
  | None => writeError StatusNotFound "Task not found" "TASK_NOT_FOUND"
  | Some _ =>
      match DecodeUpdateTaskRequest lib (ReqBody r) with
      | None => writeError StatusBadRequest "Invalid JSON format" "INVALID_JSON"
      | Some req =>
          if match UpdateTaskRequest.Status req with
             | Some status => negb (validator.Status status)
             | None => false
             end
          then
            writeError StatusBadRequest
              "Invalid status. Must be one of: pending, in-progress, completed"
              "INVALID_STATUS"
          else
            user ← match UpdateTaskRequest.UserID req with
                   | Some userID => u ← on_store (store.GetUserByID userID); mret (Some u)
                   | None => mret None
                   end;
            if match user with Some None => true | _ => false end then
              writeError StatusBadRequest "User ID does not exist" "INVALID_USER_ID"
            else if match UpdateTaskRequest.Title req with
                    | Some title => negb (validators.NonEmpty lib title)
                    | None => false
                    end
            then writeError StatusBadRequest "Title cannot be empty" "INVALID_TITLE"
            else
              updatedTask ← on_store (store.UpdateTask id (UpdateTaskRequest.Title req)
                                        (UpdateTaskRequest.Status req)
                                        (UpdateTaskRequest.UserID req));
              InvalidateTaskCaches;;
              writeJSON StatusOK (task_ptr updatedTask)
      end
  end.

Definition handleTaskByID (lib : Lib) (r : Request) : H unit :=
  Header_Set "Content-Type" "application/json";;
  Header_Set "Access-Control-Allow-Origin" "*";;
  let path := TrimPrefix (Path r) "/api/tasks/" in
  if String.eqb path "" then
    writeError StatusBadRequest "Task ID is required" "MISSING_ID"
  else
    match strconv.Atoi path with
    | None => writeError StatusBadRequest "Invalid task ID" "INVALID_ID"
    | Some id =>
        if String.eqb (Method r) "GET" then getTaskByID r id
        else if String.eqb (Method r) "PUT" then updateTask lib r id
        else if String.eqb (Method r) "OPTIONS" then handleCORS
        else writeError StatusMethodNotAllowed "Method not allowed" "METHOD_NOT_ALLOWED"
    end.

Definition handleStats (lib : Lib) (r : Request) : H unit :=
  if negb (String.eqb (Method r) "GET") then
    http_Error "Method not allowed" StatusMethodNotAllowed
  else
    let cacheKey := cache.StatsKey in
    '(cached, found) ← cache_Get lib cacheKey;
    if found : bool then
      Header_Set "Content-Type" "application/json";;
      Header_Set "Access-Control-Allow-Origin" "*";;
      Encode (default Null cached)
    else
      stats ← on_store store.GetStats;
      cache_Set lib cacheKey (Stats stats);;
      Header_Set "Content-Type" "application/json";;
      Header_Set "Access-Control-Allow-Origin" "*";;
      Encode (Stats stats).

(** The routes that [RegisterRoutes] gives to these handlers. *)
Inductive route : Type :=
| api_users | api_users_id | api_tasks | api_tasks_id | api_stats.

Definition handle (lib : Lib) (rt : route) (r : Request) : H unit :=
  match rt with
  | api_users => handleUsers lib r
  | api_users_id => handleUserByID lib r
  | api_tasks => handleTasks lib r
  | api_tasks_id => handleTaskByID lib r
  | api_stats => handleStats lib r
  end.

(** Serving one request: the handler runs on a new response writer. *)
Definition serve (lib : Lib) (rt : route) (r : Request) (σ : state) : state :=
  (handle lib rt r (mkState (st σ) (ca σ) (reads σ) (evs σ) newResponseWriter)).2.

End handler.

(** ** What the cache should hold

    The answer a listing route computes from the store, which is what it
    puts in the cache under the route's key. *)

Definition fresh_users (s : store.Store) : handler.value :=
  handler.UsersResponse (store.result (store.GetUsers s))
                        (len (store.result (store.GetUsers s))).

Definition fresh_tasks (status userID : string) (s : store.Store) : handler.value :=
  handler.TasksResponse (store.result (store.GetTasks status userID s))
                        (len (store.result (store.GetTasks status userID s))).

Definition fresh_stats (s : store.Store) : handler.value :=
  handler.Stats (store.result (store.GetStats s)).

(** The cache key and the current answer of a [GET] on a listing route. *)
Definition listing (rt : handler.route) (r : handler.Request) (s : store.Store)
  : option (string * handler.value) :=
  match rt with
  | handler.api_users => Some (cache.UsersKey, fresh_users s)
  | handler.api_tasks =>
      Some (cache.TasksKey (handler.Query r "status") (handler.Query r "userId"),
            fresh_tasks (handler.Query r "status") (handler.Query r "userId") s)
  | handler.api_stats => Some (cache.StatsKey, fresh_stats s)
  | _ => None
  end.

(** Every entry of the cache, expired or not, is the current answer of
    its key. *)
Definition coherent (s : store.Store) (c : cache.Cache handler.value) : Prop :=
  (∀ e, cache.entries c !! cache.UsersKey = Some e → cache.Data e = fresh_users s)
  ∧ (∀ e, cache.entries c !! cache.StatsKey = Some e → cache.Data e = fresh_stats s)
  ∧ (∀ status userID e,
       cache.entries c !! cache.TasksKey status userID = Some e →
       cache.Data e = fresh_tasks status userID s).

(** No stored status holds a [':']. *)
Definition plain_statuses (s : store.Store) : Prop :=
  Forall (λ t, has_colon (Task.Status t) = false) (store.tasks s).


(** ** Runs of the server

    Between two requests the cache's [cleanupExpired] may tick; a tick
    reads the clock. *)
Inductive step : Type :=
| request (rt : handler.route) (r : handler.Request)
| tick.

Definition cleanup (lib : Lib) : handler.H unit :=
  now ← handler.Now lib;
  handler.on_cache (λ c, (tt, cache.cleanupExpired_tick now c)).

Definition run_step (lib : Lib) (σ : handler.state) (x : step) : handler.state :=
  match x with
  | request rt r => handler.serve lib rt r σ
  | tick => (cleanup lib σ).2
  end.

Definition run (lib : Lib) (xs : list step) (σ : handler.state) : handler.state :=
  fold_left (run_step lib) xs σ.

(** The ways a request can go, by what it does to the store and the cache:
    it only answers; it answers a listing from the cache; it computes a
    listing and caches it; or it creates or updates a record and
    invalidates. *)
Inductive outcome (lib : Lib) (rt : handler.route) (r : handler.Request)
    (σ σ' : handler.state) : Prop :=
| answered (code : Z) (tr : list event) :
    handler.st σ' = handler.st σ →
    handler.ca σ' = handler.ca σ →
    handler.evs σ' = handler.evs σ ++ tr →
    Forall (λ e, e = RLock ∨ e = RUnlock) tr →
    handler.Code (handler.w σ') = Some code →
    (handler.Method r = "POST" ∨ handler.Method r = "PUT" → 400 <= code) →
    (handler.Method r = "GET" → listing rt r (handler.st σ) = None) →
    outcome lib rt r σ σ'
| hit (key : string) (v : handler.value) (e : cache.Entry handler.value) :
    handler.Method r = "GET" →
    listing rt r (handler.st σ) = Some (key, v) →
    cache.entries (handler.ca σ) !! key = Some e →
    handler.st σ' = handler.st σ →
    cache.entries (handler.ca σ') = cache.entries (handler.ca σ) →
    handler.evs σ' = handler.evs σ →
    handler.Code (handler.w σ') = Some handler.StatusOK →
    handler.Body (handler.w σ') = [handler.JSON (cache.Data e)] →
    outcome lib rt r σ σ'
| filled (key : string) (v : handler.value) (e : cache.Entry handler.value) :
    handler.Method r = "GET" →
    listing rt r (handler.st σ) = Some (key, v) →
    cache.Data e = v →
    handler.st σ' = handler.st σ →
    cache.entries (handler.ca σ') = <[key := e]> (cache.entries (handler.ca σ)) →
    handler.evs σ' = handler.evs σ ++ [RLock; RUnlock] →
    handler.Code (handler.w σ') = Some handler.StatusOK →
    handler.Body (handler.w σ') = [handler.JSON v] →
    outcome lib rt r σ σ'
| created_user (req : CreateUserRequest.t) :
    rt = handler.api_users →
    handler.Method r = "POST" →
    DecodeCreateUserRequest lib (handler.ReqBody r) = Some req →
    CreateUserRequest.Email req ∉ (User.Email <$> store.users (handler.st σ)) →
    handler.st σ'
    = store.after (store.CreateUser (CreateUserRequest.Name req) (CreateUserRequest.Email req)
                     (CreateUserRequest.Role req) (handler.st σ)) →
    handler.ca σ'
    = cache.Invalidate [cache.StatsKey] (cache.Invalidate [cache.UsersKey] (handler.ca σ)) →
    handler.evs σ' = handler.evs σ ++ [RLock; RUnlock; Lock; Go go_persistAsync; Unlock] →
    handler.Code (handler.w σ') = Some handler.StatusCreated →
    outcome lib rt r σ σ'
| created_task (req : CreateTaskRequest.t) :
    rt = handler.api_tasks →
    handler.Method r = "POST" →
    DecodeCreateTaskRequest lib (handler.ReqBody r) = Some req →
    validator.Status (CreateTaskRequest.Status req) = true →
    CreateTaskRequest.UserID req ∈ user_ids (handler.st σ) →
    handler.st σ'
    = store.after (store.CreateTask (CreateTaskRequest.Title req) (CreateTaskRequest.Status req)
                     (CreateTaskRequest.UserID req) (handler.st σ)) →
    handler.ca σ' = cache.InvalidateAll (handler.ca σ) →
    handler.evs σ' = handler.evs σ ++ [RLock; RUnlock; Lock; Go go_persistAsync; Unlock] →
    handler.Code (handler.w σ') = Some handler.StatusCreated →
    outcome lib rt r σ σ'
| updated_task (id : Z) (req : UpdateTaskRequest.t) :
    rt = handler.api_tasks_id →
    handler.Method r = "PUT" →
    DecodeUpdateTaskRequest lib (handler.ReqBody r) = Some req →
    id ∈ task_ids (handler.st σ) →
    (∀ status, UpdateTaskRequest.Status req = Some status → validator.Status status = true) →
    (∀ userID, UpdateTaskRequest.UserID req = Some userID → userID ∈ user_ids (handler.st σ)) →
    handler.st σ'
    = store.after (store.UpdateTask id (UpdateTaskRequest.Title req)
                     (UpdateTaskRequest.Status req) (UpdateTaskRequest.UserID req)
                     (handler.st σ)) →
    handler.ca σ' = cache.InvalidateAll (handler.ca σ) →
    (∃ tr, handler.evs σ' = handler.evs σ ++ tr ++ [Lock; Go go_persistAsync; Unlock]
           ∧ Forall (λ e, e = RLock ∨ e = RUnlock) tr) →
    handler.Code (handler.w σ') = Some handler.StatusOK →
    outcome lib rt r σ σ'.

(** ** A sample server

    A library that trims nothing, matches every address and decodes every
    body of a kind to one request, with a clock that advances by one at
    each reading; the seeded store behind an empty cache with a TTL of
    300. *)

Module sample.

Definition lib : Lib := {|
  TrimSpace := λ s, s;
  MatchString := λ _ _, true;
  DecodeCreateUserRequest := λ _,
    Some (CreateUserRequest.mk "Alice Cooper" "alice@example.com" "manager");
  DecodeCreateTaskRequest := λ _, Some (CreateTaskRequest.mk "New task" "urgent" 1);
  DecodeUpdateTaskRequest := λ _,
    Some (UpdateTaskRequest.mk (Some "Updated task") (Some "completed") None);
  clock := λ n, Z.of_nat n |}.

Definition start : handler.state :=
  handler.mkState store.defaultStore (cache.New 300) 0 [] handler.newResponseWriter.

Definition GET (path : string) : handler.Request :=
  handler.mkRequest "GET" path (λ _, "") [].
Definition POST (path : string) : handler.Request :=
  handler.mkRequest "POST" path (λ _, "") [].

(** [GET /api/tasks?status=..&userId=..] *)
Definition GET_tasks (status userID : string) : handler.Request :=
  handler.mkRequest "GET" "/api/tasks"
    (λ k, if String.eqb k "status" then status
          else if String.eqb k "userId" then userID else "") [].

(** A store, as a data file can give it, with a status that holds a [':']. *)
Definition odd : handler.state :=
  handler.mkState
    (store.NewWithData [User.mk 1 "John Doe" "john@example.com" "developer"]
                       [Task.mk 1 "Odd one" "a:b" 1])
    (cache.New 300) 0 [] handler.newResponseWriter.

End sample.

(** Running a handler: unfold the handler and the response writer, keep
    the store's and the cache's methods folded. *)
Ltac run_handler :=
  cbv [handler.handle handler.serve
       handler.handleUsers handler.listUsers handler.createUser handler.handleUserByID
       handler.handleTasks handler.listTasks handler.createTask handler.handleTaskByID
       handler.getTaskByID handler.updateTask handler.handleStats
       handler.writeJSON handler.writeError handler.handleCORS
       handler.InvalidateUserCaches handler.InvalidateTaskCaches
       handler.http_Error handler.Encode handler.Write handler.WriteHeader
       handler.Header_Set handler.on_w handler.on_cache handler.on_store handler.Now
       handler.cache_Get handler.cache_Set handler.cache_Invalidate
       handler.cache_InvalidateAll handler.newResponseWriter
       mbind mret handler.H_bind handler.H_ret handler.bind handler.ret
       fst snd handler.st handler.ca handler.reads handler.evs handler.w
       handler.Header handler.Code handler.Body default].


(** A request that only answers, with status [c] after the events [tr]. *)
Ltac just_answered c tr :=
  apply (answered _ _ _ _ _ c tr); cbn;
  [reflexivity | reflexivity
  | rewrite <- ?app_assoc, ?app_nil_r; reflexivity
  | repeat (constructor; [by (left + right)|]); apply Forall_nil_2
  | reflexivity
  | try (intros [?|?]; congruence); try (intros _; by vm_compute)
  | intros ?; first [reflexivity | congruence] ].



Ltac validations :=
  repeat (match goal with |- context [if negb ?b then _ else _] =>
            destruct b eqn:?; cbn [negb] end;
          [|just_answered 400 (@nil event)]).


(** * Properties *)

(** ** Go integers *)

Lemma wrap_in_range (z : Z) : goint.in_range z → goint.wrap z = z.
Proof.
  unfold goint.in_range, goint.wrap, goint.min_int, goint.max_int. intros Hz.
  rewrite Z.mod_small; lia.
Qed.

Lemma wrap_max_int_succ : goint.wrap (goint.max_int + 1) = goint.min_int.
Proof. reflexivity. Qed.

(** ** The identifier loop of [CreateUser] and [CreateTask] *)

Lemma loop_maxID_users (us : list User) (a : Z) :
  fold_left (λ maxID user, if User.ID user >? maxID then User.ID user else maxID) us a
  = loop_maxID (User.ID <$> us) a.
Proof. revert a. induction us as [|u us IH]; intros a; simpl; [done|]. apply IH. Qed.

Lemma loop_maxID_tasks (ts : list Task) (a : Z) :
  fold_left (λ maxID task, if Task.ID task >? maxID then Task.ID task else maxID) ts a
  = loop_maxID (Task.ID <$> ts) a.
Proof. revert a. induction ts as [|t ts IH]; intros a; simpl; [done|]. apply IH. Qed.

Lemma loop_maxID_max (ids : list Z) (a : Z) :
  loop_maxID ids a = foldr Z.max a ids.
Proof.
  revert a. induction ids as [|x ids IH]; intros a; simpl; [done|].
  unfold loop_maxID in *. simpl. rewrite IH.
  destruct (Z.gtb_spec x a).
  - clear IH. induction ids as [|y ids IH]; simpl; lia.
  - clear IH. induction ids as [|y ids IH]; simpl; lia.
Qed.

Lemma foldr_max_ge (ids : list Z) (a : Z) :
  a <= foldr Z.max a ids ∧ Forall (λ x, x <= foldr Z.max a ids) ids.
Proof.
  induction ids as [|x ids [IH1 IH2]]; simpl; [split; [lia|constructor]|].
  split; [lia|]. constructor; [lia|].
  eapply Forall_impl; [exact IH2|]. simpl. intros; lia.
Qed.

Lemma foldr_max_swap (a x : Z) (r : list Z) :
  foldr Z.max a (x :: r) = Z.max a (foldr Z.max x r).
Proof. simpl. induction r as [|y r IH]; simpl; lia. Qed.

(** Unless every identifier is negative, the loop computes what the
    specification says. *)
Lemma loop_maxID_next_id (ids : list Z) :
  ids = [] ∨ Exists (λ x, 0 <= x) ids → loop_maxID ids 0 + 1 = spec.next_id ids.
Proof.
  intros Hpos. rewrite loop_maxID_max. destruct ids as [|x ids]; [done|].
  destruct Hpos as [Hnil|Hpos]; [done|].
  unfold spec.next_id. f_equal. rewrite foldr_max_swap.
  destruct (foldr_max_ge ids x) as [Hx Hall].
  apply Exists_cons in Hpos as [Hpos|Hpos]; [lia|].
  apply Exists_exists in Hpos as (y & Hy & Hy0).
  rewrite Forall_forall in Hall. specialize (Hall y Hy). lia.
Qed.

Lemma CreateUser_eq (name email role : string) (s : store.Store) :
  store.CreateUser name email role s =
  let newUser := User.mk (goint.wrap (loop_maxID (user_ids s) 0 + 1)) name email role in
  (newUser, store.mkStore (store.users s ++ [newUser]) (store.tasks s),
   [Lock; Go go_persistAsync; Unlock]).
Proof. unfold store.CreateUser. run_method. rewrite loop_maxID_users. reflexivity. Qed.

Lemma CreateTask_eq (title status : string) (userID : Z) (s : store.Store) :
  store.CreateTask title status userID s =
  let newTask := Task.mk (goint.wrap (loop_maxID (task_ids s) 0 + 1)) title status userID in
  (newTask, store.mkStore (store.users s) (store.tasks s ++ [newTask]),
   [Lock; Go go_persistAsync; Unlock]).
Proof. unfold store.CreateTask. run_method. rewrite loop_maxID_tasks. reflexivity. Qed.

Lemma loop_maxID_bounds (ids : list Z) :
  0 <= loop_maxID ids 0
  ∧ Forall (λ x, x <= loop_maxID ids 0) ids
  ∧ (loop_maxID ids 0 = 0 ∨ loop_maxID ids 0 ∈ ids).
Proof.
  rewrite loop_maxID_max. destruct (foldr_max_ge ids 0) as [H0 Hall].
  split; [done|]. split; [done|].
  clear. induction ids as [|x ids IH]; simpl; [by left|].
  destruct (Z.max_spec x (foldr Z.max 0 ids)) as [[_ ->]|[_ ->]].
  - destruct IH as [->|IH]; [by left|right; by constructor].
  - right. constructor.
Qed.

(** One creation in a collection that has room: the identifier is the
    specification's, above every identifier present, and the collection
    still has room for the rest. *)
Lemma fresh_id_step (ids : list Z) (n : Z) :
  ids_fit ids n → 1 <= n →
  let i := goint.wrap (loop_maxID ids 0 + 1) in
  i = spec.next_id ids ∧ Forall (λ x, x < i) ids ∧ ids_fit (ids ++ [i]) (n - 1).
Proof.
  intros (Hn & Hfit & Hpos) H1 i.
  destruct (loop_maxID_bounds ids) as (Hm0 & Hmax & Hmem).
  assert (Hroom : loop_maxID ids 0 + n <= goint.max_int).
  { destruct Hmem as [->|Hin]; [lia|].
    rewrite Forall_forall in Hfit. by apply Hfit. }
  assert (Hi : i = loop_maxID ids 0 + 1).
  { apply wrap_in_range. unfold goint.in_range, goint.min_int. lia. }
  unfold ids_fit. split_and!.
  - rewrite Hi. by apply loop_maxID_next_id.
  - eapply Forall_impl; [exact Hmax|]. simpl. intros; lia.
  - lia.
  - apply Forall_app. split.
    + eapply Forall_impl; [exact Hfit|]. simpl. intros; lia.
    + constructor; [lia|constructor].
  - right. apply Exists_app. right. constructor. lia.
Qed.

Lemma user_calls_cons (c : calls.call) (cs : list calls.call) :
  calls.user_calls (c :: cs)
  = (if calls.is_user_call c then 1 else 0) + calls.user_calls cs.
Proof. unfold calls.user_calls, len. simpl. destruct (calls.is_user_call c); simpl; lia. Qed.

Lemma task_calls_cons (c : calls.call) (cs : list calls.call) :
  calls.task_calls (c :: cs)
  = (if calls.is_task_call c then 1 else 0) + calls.task_calls cs.
Proof. unfold calls.task_calls, len. simpl. destruct (calls.is_task_call c); simpl; lia. Qed.

Lemma user_calls_nonneg (cs : list calls.call) : 0 <= calls.user_calls cs.
Proof. unfold calls.user_calls, len. lia. Qed.

Lemma task_calls_nonneg (cs : list calls.call) : 0 <= calls.task_calls cs.
Proof. unfold calls.task_calls, len. lia. Qed.

Lemma user_calls_app (cs cs' : list calls.call) :
  calls.user_calls (cs ++ cs') = calls.user_calls cs + calls.user_calls cs'.
Proof. unfold calls.user_calls, len. rewrite List.filter_app, length_app. lia. Qed.

Lemma task_calls_app (cs cs' : list calls.call) :
  calls.task_calls (cs ++ cs') = calls.task_calls cs + calls.task_calls cs'.
Proof. unfold calls.task_calls, len. rewrite List.filter_app, length_app. lia. Qed.

Lemma perform_eq (c : calls.call) (s : store.Store) :
  calls.perform c s =
  match c with
  | calls.callCreateUser name email role =>
      let r := store.CreateUser name email role s in
      (calls.replyUser (store.result r), store.after r, store.events r)
  | calls.callCreateTask title status userID =>
      let r := store.CreateTask title status userID s in
      (calls.replyTask (store.result r), store.after r, store.events r)
  end.
Proof.
  destruct c; unfold calls.perform; run_method.
  - rewrite CreateUser_eq. reflexivity.
  - rewrite CreateTask_eq. reflexivity.
Qed.

Lemma run_cons (c : calls.call) (cs : list calls.call) (s : store.Store) :
  calls.run (c :: cs) s =
  let r1 := calls.perform c s in
  let r2 := calls.run cs (store.after r1) in
  (store.result r1 :: store.result r2, store.after r2, store.events r1 ++ store.events r2).
Proof.
  cbn [calls.run]. run_method.
  destruct (calls.perform c s) as [[a s1] tr1]. cbn.
  destruct (calls.run cs s1) as [[b s2] tr2]. cbn. by rewrite app_nil_r.
Qed.

Lemma run_app (pre post : list calls.call) (s : store.Store) :
  calls.run (pre ++ post) s =
  let r1 := calls.run pre s in
  let r2 := calls.run post (store.after r1) in
  (store.result r1 ++ store.result r2, store.after r2, store.events r1 ++ store.events r2).
Proof.
  revert s. induction pre as [|c pre IH]; intros s.
  - cbn. by destruct (calls.run post s) as [[??]?].
  - rewrite <- app_comm_cons, !run_cons. cbn zeta. rewrite IH. cbn zeta.
    unfold store.result, store.after, store.events. cbn. by rewrite app_assoc.
Qed.

Lemma run_length (cs : list calls.call) (s : store.Store) :
  length (store.result (calls.run cs s)) = length cs.
Proof.
  revert s. induction cs as [|c cs IH]; intros s; [done|].
  rewrite run_cons. cbn. by rewrite IH.
Qed.

(** The outcome of one call in a store whose collections have room. *)
Lemma perform_ids (c : calls.call) (s : store.Store) (nu nt : Z) :
  ids_fit (user_ids s) ((if calls.is_user_call c then 1 else 0) + nu) → 0 <= nu →
  ids_fit (task_ids s) ((if calls.is_task_call c then 1 else 0) + nt) → 0 <= nt →
  let r := calls.perform c s in
  match store.result r with
  | calls.replyUser u =>
      User.ID u = spec.next_id (user_ids s)
      ∧ Forall (λ x, x < User.ID u) (user_ids s)
      ∧ user_ids (store.after r) = user_ids s ++ [User.ID u]
      ∧ task_ids (store.after r) = task_ids s
  | calls.replyTask t =>
      Task.ID t = spec.next_id (task_ids s)
      ∧ Forall (λ x, x < Task.ID t) (task_ids s)
      ∧ task_ids (store.after r) = task_ids s ++ [Task.ID t]
      ∧ user_ids (store.after r) = user_ids s
  end
  ∧ ids_fit (user_ids (store.after r)) nu
  ∧ ids_fit (task_ids (store.after r)) nt.
Proof.
  intros Hu Hnu Ht Hnt r. subst r. rewrite perform_eq.
  destruct c as [name email role|title status userID]; cbn [calls.is_user_call calls.is_task_call] in *.
  - rewrite CreateUser_eq. cbn.
    destruct (fresh_id_step (user_ids s) (1 + nu) Hu ltac:(lia)) as (Hid & Hlt & Hfit).
    replace (1 + nu - 1) with nu in Hfit by lia.
    unfold user_ids, task_ids in *. cbn. rewrite fmap_app. cbn.
    split; [by repeat split|]. split; [exact Hfit|exact Ht].
  - rewrite CreateTask_eq. cbn.
    destruct (fresh_id_step (task_ids s) (1 + nt) Ht ltac:(lia)) as (Hid & Hlt & Hfit).
    replace (1 + nt - 1) with nt in Hfit by lia.
    unfold user_ids, task_ids in *. cbn. rewrite fmap_app. cbn.
    split; [by repeat split|]. split; [exact Hu|exact Hfit].
Qed.

(** A sequence of calls in a store that has room for it. *)
Lemma run_ids (cs : list calls.call) :
  ∀ (s : store.Store) (nu nt : Z),
  ids_fit (user_ids s) (calls.user_calls cs + nu) → 0 <= nu →
  ids_fit (task_ids s) (calls.task_calls cs + nt) → 0 <= nt →
  let r := calls.run cs s in
  user_ids (store.after r) = user_ids s ++ calls.assigned_user_ids (store.result r)
  ∧ task_ids (store.after r) = task_ids s ++ calls.assigned_task_ids (store.result r)
  ∧ StronglySorted Z.lt (calls.assigned_user_ids (store.result r))
  ∧ StronglySorted Z.lt (calls.assigned_task_ids (store.result r))
  ∧ Forall (λ i, Forall (λ x, x < i) (user_ids s)) (calls.assigned_user_ids (store.result r))
  ∧ Forall (λ i, Forall (λ x, x < i) (task_ids s)) (calls.assigned_task_ids (store.result r))
  ∧ ids_fit (user_ids (store.after r)) nu
  ∧ ids_fit (task_ids (store.after r)) nt.
Proof.
  induction cs as [|c cs IH]; intros s nu nt Hu Hnu Ht Hnt r; subst r.
  - change (calls.user_calls [] + nu) with nu in Hu.
    change (calls.task_calls [] + nt) with nt in Ht.
    cbn. rewrite !app_nil_r. split_and!; try done; constructor.
  - rewrite run_cons.
    rewrite user_calls_cons in Hu. rewrite task_calls_cons in Ht.
    rewrite <- Z.add_assoc in Hu, Ht.
    pose proof (user_calls_nonneg cs). pose proof (task_calls_nonneg cs).
    pose proof (perform_ids c s _ _ Hu ltac:(lia) Ht ltac:(lia)) as Hp.
    destruct (calls.perform c s) as [[a s1] tr1].
    unfold store.result, store.after in Hp |- *. cbn [fst snd] in Hp |- *.
    destruct Hp as (Hc & Hu1 & Ht1).
    pose proof (IH s1 nu nt Hu1 Hnu Ht1 Hnt) as Hr. clear IH.
    destruct (calls.run cs s1) as [[rs s2] tr2].
    unfold store.result, store.after in Hr. cbn [fst snd] in Hr |- *.
    destruct Hr as (Eu & Et & Su & St & Fu & Ft & Hu2 & Ht2).
    destruct a as [u|t]; cbn [calls.assigned_user_ids calls.assigned_task_ids omap list_omap];
      fold (calls.assigned_user_ids rs); fold (calls.assigned_task_ids rs).
    + destruct Hc as (Hid & Hlt & Eu1 & Et1).
      rewrite Eu1 in Eu, Fu. rewrite Et1 in Et, Ft.
      split_and!; try done.
      * by rewrite Eu, <- app_assoc.
      * constructor; [done|].
        eapply Forall_impl; [exact Fu|]. cbn. intros i Hi.
        apply Forall_app in Hi as [_ Hi]. by inversion Hi.
      * constructor; [done|].
        eapply Forall_impl; [exact Fu|]. cbn. intros i Hi.
        by apply Forall_app in Hi as [Hi _].
    + destruct Hc as (Hid & Hlt & Et1 & Eu1).
      rewrite Eu1 in Eu, Fu. rewrite Et1 in Et, Ft.
      split_and!; try done.
      * by rewrite Et, <- app_assoc.
      * constructor; [done|].
        eapply Forall_impl; [exact Ft|]. cbn. intros i Hi.
        apply Forall_app in Hi as [_ Hi]. by inversion Hi.
      * constructor; [done|].
        eapply Forall_impl; [exact Ft|]. cbn. intros i Hi.
        by apply Forall_app in Hi as [Hi _].
Qed.

(** C1, as the code has it.  Take a store in which each collection is
    empty or holds a non-negative identifier, and a sequence of
    [CreateUser] and [CreateTask] calls that the [int] range has room for
    ([ids_fit]).  Then every call of the sequence is given the maximum
    identifier present in its collection at that moment plus one (1 for an
    empty collection), which is above every identifier present, so none is
    used again; the collections grow by exactly the identifiers assigned;
    and per collection the identifiers assigned are strictly increasing. *)
Theorem create_ids_max_plus_one (s0 : store.Store) (cs : list calls.call) :
  ids_fit (user_ids s0) (calls.user_calls cs) →
  ids_fit (task_ids s0) (calls.task_calls cs) →
  let r := calls.run cs s0 in
  (∀ pre c post, cs = pre ++ c :: post →
     let s := store.after (calls.run pre s0) in
     store.result r !! length pre = Some (store.result (calls.perform c s))
     ∧ match store.result (calls.perform c s) with
       | calls.replyUser u =>
           User.ID u = spec.next_id (user_ids s)
           ∧ Forall (λ x, x < User.ID u) (user_ids s)
       | calls.replyTask t =>
           Task.ID t = spec.next_id (task_ids s)
           ∧ Forall (λ x, x < Task.ID t) (task_ids s)
       end)
  ∧ user_ids (store.after r) = user_ids s0 ++ calls.assigned_user_ids (store.result r)
  ∧ task_ids (store.after r) = task_ids s0 ++ calls.assigned_task_ids (store.result r)
  ∧ StronglySorted Z.lt (calls.assigned_user_ids (store.result r))
  ∧ StronglySorted Z.lt (calls.assigned_task_ids (store.result r)).
Proof.
  intros Hu Ht r.
  split.
  - intros pre c post ->. intros s.
    split.
    + subst r. rewrite run_app. cbn zeta. rewrite run_cons. cbn zeta.
      unfold store.result at 1. cbn [fst].
      rewrite lookup_app_r by (rewrite run_length; lia).
      rewrite run_length, Nat.sub_diag. reflexivity.
    + rewrite user_calls_app, user_calls_cons in Hu.
      rewrite task_calls_app, task_calls_cons in Ht.
      pose proof (user_calls_nonneg post). pose proof (task_calls_nonneg post).
      assert (Hnu : 0 <= (if calls.is_user_call c then 1 else 0) + calls.user_calls post)
        by (destruct (calls.is_user_call c); lia).
      assert (Hnt : 0 <= (if calls.is_task_call c then 1 else 0) + calls.task_calls post)
        by (destruct (calls.is_task_call c); lia).
      destruct (run_ids pre s0 _ _ Hu Hnu Ht Hnt) as (_ & _ & _ & _ & _ & _ & Hu1 & Ht1).
      cbn zeta in Hu1, Ht1. fold s in Hu1, Ht1.
      destruct (perform_ids c s _ _ Hu1 ltac:(lia) Ht1 ltac:(lia)) as (Hc & _).
      cbn zeta in Hc.
      destruct (store.result (calls.perform c s)); by destruct Hc as (? & ? & _).
  - rewrite <- (Z.add_0_r (calls.user_calls cs)) in Hu.
    rewrite <- (Z.add_0_r (calls.task_calls cs)) in Ht.
    destruct (run_ids cs s0 0 0 Hu ltac:(lia) Ht ltac:(lia)) as (Eu & Et & Su & St & _).
    by split_and!.
Qed.

Lemma create_ids_max_plus_one_witness :
  ids_fit (user_ids store.defaultStore)
    (calls.user_calls [calls.callCreateUser "Alice Cooper" "alice@example.com" "manager";
                       calls.callCreateTask "New task" "pending" 1;
                       calls.callCreateUser "Carol" "carol@example.com" "tester"])
  ∧ ids_fit (task_ids store.defaultStore)
      (calls.task_calls [calls.callCreateUser "Alice Cooper" "alice@example.com" "manager";
                         calls.callCreateTask "New task" "pending" 1;
                         calls.callCreateUser "Carol" "carol@example.com" "tester"])
  ∧ user_ids
      (store.after
         (calls.run [calls.callCreateUser "Alice Cooper" "alice@example.com" "manager";
                     calls.callCreateTask "New task" "pending" 1;
                     calls.callCreateUser "Carol" "carol@example.com" "tester"]
                    store.defaultStore))
    = user_ids store.defaultStore
      ++ calls.assigned_user_ids
           (store.result
              (calls.run [calls.callCreateUser "Alice Cooper" "alice@example.com" "manager";
                          calls.callCreateTask "New task" "pending" 1;
                          calls.callCreateUser "Carol" "carol@example.com" "tester"]
                         store.defaultStore))
  ∧ StronglySorted Z.lt
      (calls.assigned_user_ids
         (store.result
            (calls.run [calls.callCreateUser "Alice Cooper" "alice@example.com" "manager";
                        calls.callCreateTask "New task" "pending" 1;
                        calls.callCreateUser "Carol" "carol@example.com" "tester"]
                       store.defaultStore))).
Proof.
  assert (Hu : ids_fit (user_ids store.defaultStore)
                 (calls.user_calls
                    [calls.callCreateUser "Alice Cooper" "alice@example.com" "manager";
                     calls.callCreateTask "New task" "pending" 1;
                     calls.callCreateUser "Carol" "carol@example.com" "tester"])).
  { split_and!; [by vm_compute|repeat constructor; by vm_compute|].
    right. constructor. by vm_compute. }
  assert (Ht : ids_fit (task_ids store.defaultStore)
                 (calls.task_calls
                    [calls.callCreateUser "Alice Cooper" "alice@example.com" "manager";
                     calls.callCreateTask "New task" "pending" 1;
                     calls.callCreateUser "Carol" "carol@example.com" "tester"])).
  { split_and!; [by vm_compute|repeat constructor; by vm_compute|].
    right. constructor. by vm_compute. }
  split; [exact Hu|]. split; [exact Ht|].
  destruct (create_ids_max_plus_one store.defaultStore _ Hu Ht) as (_ & Eu & _ & Su & _).
  split; [exact Eu|exact Su].
Defined.

(** C1 as the specification words it fails twice.  On a store that holds
    only a negative identifier the loop, which starts its maximum at 0,
    gives the call 1, where the maximum present plus one is -4.  On a store
    that holds the largest [int] the sum wraps: two creations in a row are
    both given the smallest [int], so the identifiers assigned are neither
    increasing nor fresh. *)
Lemma create_id_not_max_plus_one :
  User.ID
    (store.result
       (store.CreateUser "b" "b@x.com" "dev"
          (store.NewWithData [User.mk (-5) "a" "a@x.com" "dev"] [])))
  ≠ spec.next_id (user_ids (store.NewWithData [User.mk (-5) "a" "a@x.com" "dev"] []))
  ∧ calls.assigned_user_ids
      (store.result
         (calls.run [calls.callCreateUser "a" "a@x.com" "dev";
                     calls.callCreateUser "b" "b@x.com" "dev"]
                    (store.NewWithData [User.mk goint.max_int "z" "z@x.com" "dev"] [])))
    = [goint.min_int; goint.min_int].
Proof. split; by vm_compute. Qed.

(** ** [UpdateTask] *)

Lemma list_alter_at {A} (f : A → A) (l : list A) (i : nat) (x : A) :
  l !! i = Some x → alter f i l = <[i := f x]> l.
Proof.
  revert i. induction l as [|y l IH]; intros [|i] Hi; simplify_eq/=; [done|].
  f_equal. by apply IH.
Qed.

Lemma set_fields_at (title status : option string) (userID : option Z)
    (ts : list Task) (i : nat) (t : Task) :
  ts !! i = Some t →
  let ts1 := match title with Some v => alter (Task.with_Title v) i ts | None => ts end in
  let ts2 := match status with Some v => alter (Task.with_Status v) i ts1 | None => ts1 end in
  let ts3 := match userID with Some v => alter (Task.with_UserID v) i ts2 | None => ts2 end in
  ts3 = <[i := spec.updated title status userID t]> ts.
Proof.
  intros Hi. pose proof (lookup_lt_Some _ _ _ Hi) as Hlt.
  destruct t as [tid ttitle tstatus tuser].
  destruct title as [v1|], status as [v2|], userID as [v3|]; cbn;
    rewrite ?list_alter_alter_eq; try (erewrite list_alter_at by exact Hi);
    try reflexivity.
  symmetry. by apply list_insert_id.
Qed.

Lemma UpdateTask_found (id : Z) (title status : option string) (userID : option Z)
    (s : store.Store) (i : nat) (t : Task) :
  list_find (λ t, Task.ID t = id) (store.tasks s) = Some (i, t) →
  store.UpdateTask id title status userID s =
  (Some (i, spec.updated title status userID t),
   store.mkStore (store.users s) (<[i := spec.updated title status userID t]> (store.tasks s)),
   [Lock; Go go_persistAsync; Unlock]).
Proof.
  intros Hfind. pose proof Hfind as (Hi & _ & _)%list_find_Some.
  pose proof (lookup_lt_Some _ _ _ Hi) as Hlt.
  pose proof (set_fields_at title status userID _ _ _ Hi) as Hset. cbn zeta in Hset.
  unfold store.UpdateTask. run_method. rewrite Hfind.
  destruct title as [v1|], status as [v2|], userID as [v3|]; cbn in Hset |- *;
    try (rewrite Hset, list_lookup_insert_eq by exact Hlt; reflexivity).
  rewrite Hi, <- Hset. cbn. by destruct s, t.
Qed.

Lemma UpdateTask_missing (id : Z) (title status : option string) (userID : option Z)
    (s : store.Store) :
  list_find (λ t, Task.ID t = id) (store.tasks s) = None →
  store.UpdateTask id title status userID s = (None, s, [Lock; Unlock]).
Proof.
  intros Hfind. unfold store.UpdateTask. run_method. rewrite Hfind. by destruct s.
Qed.

(** C3.  For an identifier present in the task collection, [UpdateTask]
    overwrites, in the first task that has it, exactly the fields whose
    argument is supplied, keeps the other fields, and returns the updated
    task (the pointer to its place in the collection). *)
Theorem UpdateTask_overwrites_supplied_fields
    (s : store.Store) (id : Z) (title status : option string) (userID : option Z) :
  id ∈ task_ids s →
  let r := store.UpdateTask id title status userID s in
  ∃ (i : nat) (t t' : Task),
    store.tasks s !! i = Some t
    ∧ Task.ID t = id
    ∧ (∀ j u, (j < i)%nat → store.tasks s !! j = Some u → Task.ID u ≠ id)
    ∧ store.result r = Some (i, t')
    ∧ store.tasks (store.after r) !! i = Some t'
    ∧ Task.ID t' = id
    ∧ Task.Title t' = match title with Some v => v | None => Task.Title t end
    ∧ Task.Status t' = match status with Some v => v | None => Task.Status t end
    ∧ Task.UserID t' = match userID with Some v => v | None => Task.UserID t end.
Proof.
  intros Hin r.
  apply list_elem_of_fmap in Hin as (t0 & Hid0 & Hin0).
  destruct (list_find_elem_of (λ t, Task.ID t = id) _ _ Hin0 (eq_sym Hid0)) as [[i t] Hfind].
  pose proof Hfind as (Hi & Hid & Hfirst)%list_find_Some.
  exists i, t, (spec.updated title status userID t).
  subst r. rewrite (UpdateTask_found _ _ _ _ _ _ _ Hfind).
  unfold store.result, store.after. cbn [fst snd store.tasks].
  split_and!; try done.
  - intros j u Hj Hu. by apply (Hfirst j u).
  - apply list_lookup_insert_eq. by eapply lookup_lt_Some.
Qed.

Lemma UpdateTask_overwrites_supplied_fields_witness :
  2 ∈ task_ids store.defaultStore
  ∧ ∃ (i : nat) (t t' : Task),
      store.tasks store.defaultStore !! i = Some t
      ∧ Task.ID t = 2
      ∧ (∀ j u, (j < i)%nat → store.tasks store.defaultStore !! j = Some u → Task.ID u ≠ 2)
      ∧ store.result (store.UpdateTask 2 None (Some "completed") None store.defaultStore)
        = Some (i, t')
      ∧ store.tasks
          (store.after (store.UpdateTask 2 None (Some "completed") None store.defaultStore))
        !! i = Some t'
      ∧ Task.ID t' = 2
      ∧ Task.Title t' = Task.Title t
      ∧ Task.Status t' = "completed"
      ∧ Task.UserID t' = Task.UserID t.
Proof.
  assert (Hin : 2 ∈ task_ids store.defaultStore).
  { apply list_elem_of_In. vm_compute. tauto. }
  split; [exact Hin|].
  exact (UpdateTask_overwrites_supplied_fields
           store.defaultStore 2 None (Some "completed") None Hin).
Defined.

(** C6.  For an identifier that no task has, [UpdateTask] returns nil,
    leaves users and tasks as they were and starts no [persistAsync]: its
    only events are taking and releasing the lock. *)
Theorem UpdateTask_absent_id
    (s : store.Store) (id : Z) (title status : option string) (userID : option Z) :
  id ∉ task_ids s →
  let r := store.UpdateTask id title status userID s in
  store.result r = None
  ∧ store.after r = s
  ∧ (Go go_persistAsync ∉ store.events r)
  ∧ store.events r = [Lock; Unlock].
Proof.
  intros Hnot r.
  assert (Hfind : list_find (λ t, Task.ID t = id) (store.tasks s) = None).
  { apply list_find_None, Forall_forall. intros t Ht Hid. apply Hnot.
    apply list_elem_of_fmap. by exists t. }
  subst r. rewrite (UpdateTask_missing _ _ _ _ _ Hfind).
  unfold store.result, store.after, store.events. cbn [fst snd].
  split_and!; try done.
  intros Hev. apply list_elem_of_In in Hev. cbn in Hev.
  destruct Hev as [Hev|[Hev|[]]]; discriminate Hev.
Qed.

Lemma UpdateTask_absent_id_witness :
  (999 ∉ task_ids store.defaultStore)
  ∧ store.result (store.UpdateTask 999 (Some "Updated") None None store.defaultStore) = None
  ∧ store.after (store.UpdateTask 999 (Some "Updated") None None store.defaultStore)
    = store.defaultStore
  ∧ (Go go_persistAsync
     ∉ store.events (store.UpdateTask 999 (Some "Updated") None None store.defaultStore))
  ∧ store.events (store.UpdateTask 999 (Some "Updated") None None store.defaultStore)
    = [Lock; Unlock].
Proof.
  assert (Hnot : 999 ∉ task_ids store.defaultStore).
  { intros Hin. apply list_elem_of_In in Hin. vm_compute in Hin.
    destruct Hin as [H|[H|[H|[]]]]; discriminate H. }
  split; [exact Hnot|].
  exact (UpdateTask_absent_id store.defaultStore 999 (Some "Updated") None None Hnot).
Defined.

(** C10.  A mutation touches its own collection and record only:
    [CreateUser] appends the user it returns and leaves the tasks alone,
    [CreateTask] appends the task it returns and leaves the users alone,
    [UpdateTask] leaves the users, the number of tasks and every task
    with another identifier alone. *)
Theorem mutations_frame (s : store.Store) :
  (∀ name email role,
     let r := store.CreateUser name email role s in
     store.users (store.after r) = store.users s ++ [store.result r]
     ∧ store.tasks (store.after r) = store.tasks s)
  ∧ (∀ title status userID,
       let r := store.CreateTask title status userID s in
       store.tasks (store.after r) = store.tasks s ++ [store.result r]
       ∧ store.users (store.after r) = store.users s)
  ∧ (∀ id title status userID,
       let r := store.UpdateTask id title status userID s in
       store.users (store.after r) = store.users s
       ∧ length (store.tasks (store.after r)) = length (store.tasks s)
       ∧ ∀ j t, store.tasks s !! j = Some t → Task.ID t ≠ id →
                store.tasks (store.after r) !! j = Some t).
Proof.
  split_and!.
  - intros name email role r. subst r. by rewrite CreateUser_eq.
  - intros title status userID r. subst r. by rewrite CreateTask_eq.
  - intros id title status userID r. subst r.
    destruct (list_find (λ t, Task.ID t = id) (store.tasks s)) as [[i t0]|] eqn:Hfind.
    + rewrite (UpdateTask_found _ _ _ _ _ _ _ Hfind).
      unfold store.after. cbn [fst snd store.users store.tasks].
      split_and!; [done|by rewrite length_insert|].
      intros j t Hj Hid.
      apply list_find_Some in Hfind as (Hi & Hid0 & _).
      rewrite list_lookup_insert_ne; [done|].
      intros ->. congruence.
    + rewrite (UpdateTask_missing _ _ _ _ _ Hfind). by unfold store.after.
Qed.

Lemma mutations_frame_witness :
  store.tasks store.defaultStore !! 1%nat
  = Some (Task.mk 2 "Design user interface" "in-progress" 2)
  ∧ store.tasks
      (store.after (store.UpdateTask 1 (Some "Updated task") (Some "completed") None
                      store.defaultStore))
    !! 1%nat
    = Some (Task.mk 2 "Design user interface" "in-progress" 2).
Proof.
  split; [reflexivity|].
  refine (proj2 (proj2 (proj2 (proj2 (mutations_frame store.defaultStore))
                          1 (Some "Updated task") (Some "completed") None))
            1%nat _ eq_refl _).
  discriminate.
Defined.

(** ** [GetTasks] *)

Lemma GetTasks_loop (status userID : string) (ts filtered : list Task) :
  fold_left
    (λ filtered task,
       let matchStatus :=
         String.eqb status "" || String.eqb (Task.Status task) status in
       let matchUserID :=
         if negb (String.eqb userID "") then
           match strconv.Atoi userID with
           | Some id => Task.UserID task =? id
           | None => false
           end
         else true in
       if matchStatus && matchUserID then filtered ++ [task] else filtered)
    ts filtered
  = filtered ++ filter (spec.task_matches status userID) ts.
Proof.
  revert filtered. induction ts as [|t ts IH]; intros filtered.
  - cbn. by rewrite app_nil_r.
  - cbn [fold_left]. rewrite IH. rewrite filter_cons. clear IH. cbn zeta.
    set (b := (String.eqb status "" || String.eqb (Task.Status t) status)
              && (if negb (String.eqb userID "") then
                    match strconv.Atoi userID with
                    | Some id => Task.UserID t =? id
                    | None => false
                    end
                  else true)).
    assert (Hiff : b = true ↔ spec.task_matches status userID t).
    { subst b. unfold spec.task_matches.
      rewrite andb_true_iff, orb_true_iff, !String.eqb_eq.
      destruct (String.eqb_spec userID "") as [->|Hne]; cbn; [intuition congruence|].
      destruct (strconv.Atoi userID) as [id|]; [|intuition congruence].
      rewrite Z.eqb_eq. intuition congruence. }
    destruct (decide (spec.task_matches status userID t)) as [Hm|Hm].
    + apply Hiff in Hm. rewrite Hm. by rewrite <- app_assoc.
    + destruct b; [|done]. exfalso. apply Hm, Hiff. reflexivity.
Qed.

(** C4.  [GetTasks] returns, in the store's order, exactly the tasks that
    match both filters; an empty filter matches every task; a non-empty
    user-id filter that [Atoi] rejects matches none, whatever the status
    filter.  The store is left as it was. *)
Theorem GetTasks_filters (s : store.Store) (status userID : string) :
  let r := store.GetTasks status userID s in
  store.result r = filter (spec.task_matches status userID) (store.tasks s)
  ∧ (status = "" → userID = "" → store.result r = store.tasks s)
  ∧ (userID ≠ "" → strconv.Atoi userID = None → store.result r = [])
  ∧ store.after r = s.
Proof.
  intros r.
  assert (Hr : store.result r = filter (spec.task_matches status userID) (store.tasks s)).
  { subst r. unfold store.GetTasks. run_method. by rewrite GetTasks_loop. }
  split_and!; [exact Hr| | |done].
  - intros -> ->. rewrite Hr. clear.
    induction (store.tasks s) as [|t ts IH]; [done|].
    rewrite filter_cons_True; [by rewrite IH|].
    split; by left.
  - intros Hne Hbad. rewrite Hr. clear Hr r.
    induction (store.tasks s) as [|t ts IH]; [done|].
    rewrite filter_cons_False; [exact IH|].
    intros [_ [Hu|Hu]]; [done|congruence].
Qed.

Lemma GetTasks_filters_witness :
  store.result (store.GetTasks "" "" store.defaultStore) = store.tasks store.defaultStore
  ∧ store.result (store.GetTasks "pending" "abc" store.defaultStore) = [].
Proof.
  split.
  - exact (proj1 (proj2 (GetTasks_filters store.defaultStore "" "")) eq_refl eq_refl).
  - refine (proj1 (proj2 (proj2 (GetTasks_filters store.defaultStore "pending" "abc"))) _ _).
    + discriminate.
    + reflexivity.
Defined.

(** ** [GetStats] *)

Lemma count_status_cons (st : string) (t : Task) (ts : list Task) :
  spec.count_status st (t :: ts)
  = (if decide (Task.Status t = st) then 1 else 0) + spec.count_status st ts.
Proof.
  unfold spec.count_status, len. rewrite filter_cons.
  destruct (decide (Task.Status t = st)); cbn [length]; lia.
Qed.

Lemma count_status_bounds (st : string) (ts : list Task) :
  0 <= spec.count_status st ts <= len ts.
Proof.
  unfold spec.count_status, len. pose proof (length_filter (λ t, Task.Status t = st) ts). lia.
Qed.

Lemma GetStats_loop (ts : list Task) :
  ∀ stats : StatsResponse,
  0 <= StatsResponse.Tasks_Pending stats →
  0 <= StatsResponse.Tasks_InProgress stats →
  0 <= StatsResponse.Tasks_Completed stats →
  StatsResponse.Tasks_Pending stats + len ts <= goint.max_int →
  StatsResponse.Tasks_InProgress stats + len ts <= goint.max_int →
  StatsResponse.Tasks_Completed stats + len ts <= goint.max_int →
  fold_left
    (λ stats task,
       if String.eqb (Task.Status task) "pending" then
         StatsResponse.incr_Pending stats
       else if String.eqb (Task.Status task) "in-progress" then
         StatsResponse.incr_InProgress stats
       else if String.eqb (Task.Status task) "completed" then
         StatsResponse.incr_Completed stats
       else stats)
    ts stats
  = StatsResponse.mk
      (StatsResponse.Users_Total stats) (StatsResponse.Tasks_Total stats)
      (StatsResponse.Tasks_Pending stats + spec.count_status "pending" ts)
      (StatsResponse.Tasks_InProgress stats + spec.count_status "in-progress" ts)
      (StatsResponse.Tasks_Completed stats + spec.count_status "completed" ts).
Proof.
  induction ts as [|t ts IH]; intros [ut tt p i c]; cbn [StatsResponse.Users_Total
    StatsResponse.Tasks_Total StatsResponse.Tasks_Pending StatsResponse.Tasks_InProgress
    StatsResponse.Tasks_Completed]; intros Hp Hi Hc Hpm Him Hcm.
  - unfold spec.count_status, len. cbn. by rewrite !Z.add_0_r.
  - assert (Hlen : len (t :: ts) = 1 + len ts) by (unfold len; cbn [length]; lia).
    rewrite Hlen in Hpm, Him, Hcm. pose proof (Nat2Z.is_nonneg (length ts)) as Hnn.
    fold (len ts) in Hnn.
    cbn [fold_left]. rewrite !count_status_cons.
    unfold StatsResponse.incr_Pending, StatsResponse.incr_InProgress,
      StatsResponse.incr_Completed.
    cbn [StatsResponse.Users_Total StatsResponse.Tasks_Total StatsResponse.Tasks_Pending
         StatsResponse.Tasks_InProgress StatsResponse.Tasks_Completed].
    assert (Hmin : goint.min_int <= 0) by (by vm_compute).
    destruct (String.eqb_spec (Task.Status t) "pending") as [E|N1];
      [|destruct (String.eqb_spec (Task.Status t) "in-progress") as [E|N2];
        [|destruct (String.eqb_spec (Task.Status t) "completed") as [E|N3]]].
    + rewrite wrap_in_range by (unfold goint.in_range; lia).
      rewrite IH by (cbn; lia). cbn. rewrite E.
      repeat case_decide; try done. f_equal; lia.
    + rewrite wrap_in_range by (unfold goint.in_range; lia).
      rewrite IH by (cbn; lia). cbn. rewrite E.
      repeat case_decide; try done. f_equal; lia.
    + rewrite wrap_in_range by (unfold goint.in_range; lia).
      rewrite IH by (cbn; lia). cbn. rewrite E.
      repeat case_decide; try done. f_equal; lia.
    + rewrite IH by (cbn; lia). cbn.
      repeat case_decide; done.
Qed.

Lemma count_status_sum (ts : list Task) :
  spec.count_status "pending" ts + spec.count_status "in-progress" ts
    + spec.count_status "completed" ts <= len ts
  ∧ (spec.count_status "pending" ts + spec.count_status "in-progress" ts
       + spec.count_status "completed" ts = len ts
     ↔ Forall spec.valid_status ts).
Proof.
  induction ts as [|t ts [IHle IHeq]].
  - unfold spec.count_status, len. cbn. split; [lia|]. split; [constructor|done].
  - rewrite !count_status_cons.
    assert (Hlen : len (t :: ts) = 1 + len ts) by (unfold len; cbn [length]; lia).
    rewrite Hlen, Forall_cons.
    destruct (decide (Task.Status t = "pending")) as [E1|N1];
      destruct (decide (Task.Status t = "in-progress")) as [E2|N2];
      destruct (decide (Task.Status t = "completed")) as [E3|N3];
      try congruence; (split; [lia|split]).
    + intros Hsum. split; [by left|apply IHeq; lia].
    + intros [_ Hall]. apply IHeq in Hall. lia.
    + intros Hsum. split; [by right; left|apply IHeq; lia].
    + intros [_ Hall]. apply IHeq in Hall. lia.
    + intros Hsum. split; [by right; right|apply IHeq; lia].
    + intros [_ Hall]. apply IHeq in Hall. lia.
    + intros Hsum. lia.
    + intros [[Hv|[Hv|Hv]] _]; done.
Qed.

(** C9.  [GetStats] reports the number of users, the number of tasks and,
    per status, the number of tasks whose status is exactly that string.
    The three status counts add up to at most the number of tasks, and to
    exactly it if and only if every task has one of the three statuses.
    (The hypothesis holds of every Go slice: its length is an [int].) *)
Theorem GetStats_counts (s : store.Store) :
  len (store.tasks s) <= goint.max_int →
  let stats := store.result (store.GetStats s) in
  StatsResponse.Users_Total stats = len (store.users s)
  ∧ StatsResponse.Tasks_Total stats = len (store.tasks s)
  ∧ StatsResponse.Tasks_Pending stats = spec.count_status "pending" (store.tasks s)
  ∧ StatsResponse.Tasks_InProgress stats = spec.count_status "in-progress" (store.tasks s)
  ∧ StatsResponse.Tasks_Completed stats = spec.count_status "completed" (store.tasks s)
  ∧ StatsResponse.Tasks_Pending stats + StatsResponse.Tasks_InProgress stats
      + StatsResponse.Tasks_Completed stats <= StatsResponse.Tasks_Total stats
  ∧ (StatsResponse.Tasks_Pending stats + StatsResponse.Tasks_InProgress stats
       + StatsResponse.Tasks_Completed stats = StatsResponse.Tasks_Total stats
     ↔ Forall spec.valid_status (store.tasks s)).
Proof.
  intros Hlen stats. subst stats. unfold store.GetStats. run_method.
  rewrite GetStats_loop by (cbn; first [lia | exact Hlen]).
  cbn. destruct (count_status_sum (store.tasks s)) as [Hle Heq].
  by split_and!.
Qed.

Lemma GetStats_counts_witness :
  len (store.tasks store.defaultStore) <= goint.max_int
  ∧ StatsResponse.Tasks_Pending (store.result (store.GetStats store.defaultStore))
    = spec.count_status "pending" (store.tasks store.defaultStore)
  ∧ StatsResponse.Tasks_Total (store.result (store.GetStats store.defaultStore))
    = len (store.tasks store.defaultStore).
Proof.
  assert (Hlen : len (store.tasks store.defaultStore) <= goint.max_int) by (by vm_compute).
  split; [exact Hlen|].
  destruct (GetStats_counts store.defaultStore Hlen) as (_ & Ht & Hp & _).
  split; [exact Hp|exact Ht].
Defined.

(** ** Start-up: [Initialize] *)

(** C7.  [Initialize] gives the seed store (3 users, 3 tasks) when
    [LoadData] fails and when it yields no users and no tasks, which is
    what it yields when the data file does not exist; otherwise it gives a
    store of exactly the loaded users and tasks. *)
Theorem Initialize_seed_or_loaded (w : World) :
  let loaded := (store.LoadData w).1 in
  let s := (store.Initialize w).1 in
  (∀ e, loaded = inr e → s = store.defaultStore)
  ∧ (∀ d, loaded = inl d →
          PersistentData.Users d = [] → PersistentData.Tasks d = [] →
          s = store.defaultStore)
  ∧ (∀ d, loaded = inl d →
          PersistentData.Users d ≠ [] ∨ PersistentData.Tasks d ≠ [] →
          s = store.NewWithData (PersistentData.Users d) (PersistentData.Tasks d))
  ∧ (Stat_IsNotExist w store.dataFilePath = true →
     loaded = inl (PersistentData.mk [] []) ∧ s = store.defaultStore)
  ∧ length (store.users store.defaultStore) = 3%nat
  ∧ length (store.tasks store.defaultStore) = 3%nat.
Proof.
  intros loaded s.
  assert (Hs : s = match loaded with
                   | inr _ => store.defaultStore
                   | inl d =>
                       if (len (PersistentData.Users d) =? 0)
                          && (len (PersistentData.Tasks d) =? 0)
                       then store.defaultStore
                       else store.NewWithData (PersistentData.Users d)
                                              (PersistentData.Tasks d)
                   end).
  { subst s loaded. unfold store.Initialize.
    cbv [mbind mret IO_bind IO_ret io_bind io_ret io_emit].
    destruct (store.LoadData w) as [[d|e] tr]; cbn [fst]; [|done].
    by destruct (_ && _). }
  assert (Hnotexist : Stat_IsNotExist w store.dataFilePath = true →
                      loaded = inl (PersistentData.mk [] [])).
  { intros Hstat. subst loaded. unfold store.LoadData.
    cbv [mbind mret IO_bind IO_ret io_bind io_ret io_emit]. by rewrite Hstat. }
  split_and!; try done.
  - intros e He. by rewrite Hs, He.
  - intros d Hd Hu Ht. by rewrite Hs, Hd, Hu, Ht.
  - intros d Hd Hne. rewrite Hs, Hd.
    destruct d as [[|u us] [|t ts]]; cbn in Hne |- *; try done.
    by destruct Hne.
  - intros Hstat. split; [by apply Hnotexist|]. by rewrite Hs, (Hnotexist Hstat).
Qed.

Lemma Initialize_seed_or_loaded_witness :
  (store.Initialize examples.corrupt).1 = store.defaultStore
  ∧ (store.Initialize examples.first_run).1 = store.defaultStore
  ∧ (store.Initialize (examples.saved examples.one_task)).1
    = store.NewWithData [] [Task.mk 7 "Write report" "pending" 1].
Proof.
  split; [|split].
  - exact (proj1 (Initialize_seed_or_loaded examples.corrupt)
             failed_to_parse_data_file eq_refl).
  - exact (proj2 (proj1 (proj2 (proj2 (proj2
             (Initialize_seed_or_loaded examples.first_run)))) eq_refl)).
  - refine (proj1 (proj2 (proj2 (Initialize_seed_or_loaded
                                   (examples.saved examples.one_task))))
              examples.one_task eq_refl _).
    right. discriminate.
Defined.

(** ** The cache *)

(** C8.  [Get] of a key right after [Set_] of it returns the value and
    [true] while less than the TTL has passed since the [Set_] (and still
    when exactly the TTL has), and [(nil, false)] once more than the TTL
    has passed; no tick of [cleanupExpired] is involved. *)
Theorem Set_then_Get {V : Type} (c : cache.Cache V) (key : string) (data : V)
    (t_set t_get : cache.Time) :
  let c' := cache.Set_ t_set key data c in
  (t_get - t_set < cache.ttl c → (cache.Get t_get key c').1 = (Some data, true))
  ∧ (t_get - t_set = cache.ttl c → (cache.Get t_get key c').1 = (Some data, true))
  ∧ (t_get - t_set > cache.ttl c → (cache.Get t_get key c').1 = (None, false)).
Proof.
  intros c'. subst c'. unfold cache.Get, cache.Set_, cache.set_entries.
  cbn [cache.entries cache.ttl]. rewrite lookup_insert_eq.
  cbn [cache.ExpiresAt cache.Data]. unfold cache.After, cache.Add.
  destruct (Z.gtb_spec t_get (t_set + cache.ttl c)); cbn [fst];
    split_and!; intros; first [done|lia].
Qed.

Lemma Set_then_Get_witness :
  (cache.Get 299 "users" (cache.Set_ 0 "users" [examples.john] (cache.New 300))).1
  = (Some [examples.john], true)
  ∧ (cache.Get 301 "users" (cache.Set_ 0 "users" [examples.john] (cache.New 300))).1
    = (None, false).
Proof.
  split.
  - apply (proj1 (Set_then_Get (cache.New 300) "users" [examples.john] 0 299)).
    reflexivity.
  - apply (proj2 (proj2 (Set_then_Get (cache.New 300) "users" [examples.john] 0 301))).
    reflexivity.
Defined.

(** A tick of [cleanupExpired] before the [Get] does not change what the
    [Get] returns. *)
Lemma cleanupExpired_tick_Get {V : Type} (c : cache.Cache V) (key : string)
    (t_tick t_get : cache.Time) :
  t_tick <= t_get →
  (cache.Get t_get key (cache.cleanupExpired_tick t_tick c)).1 = (cache.Get t_get key c).1.
Proof.
  intros Hle. unfold cache.Get, cache.cleanupExpired_tick, cache.set_entries.
  cbn [cache.entries].
  destruct (cache.entries c !! key) as [e|] eqn:He.
  - destruct (cache.After t_tick (cache.ExpiresAt e)) eqn:Hexp.
    + rewrite (proj2 (map_lookup_filter_None _ _ _)).
      * unfold cache.After in *. 
        destruct (Z.gtb_spec t_get (cache.ExpiresAt e)); [done|].
        apply Z.gtb_lt in Hexp. lia.
      * right. intros e' He'. cbn. congruence.
    + rewrite (map_lookup_filter_Some_2 _ _ _ e); [|done|done].
      by destruct (cache.After t_get (cache.ExpiresAt e)).
  - rewrite (proj2 (map_lookup_filter_None _ _ _)); [done|]. by left.
Qed.

(** ** [Persist] and the lock *)

(** The events of [SaveData]: system calls only, [MkdirAll] first. *)
Lemma SaveData_events (w : World) (data : PersistentData.t) :
  ∃ tr, (store.SaveData w data).2 = Sys (SysMkdirAll store.dataFileDir) :: tr
        ∧ forallb mutex.is_syscall tr = true.
Proof.
  unfold store.SaveData. cbv [mbind mret IO_bind IO_ret io_bind io_ret io_emit].
  destruct (MkdirAll w store.dataFileDir); cbn; [|by eexists].
  destruct (MarshalIndent w data) as [jsonData|]; cbn; [|by eexists].
  destruct (WriteFile w _ jsonData); cbn; [|by eexists].
  destruct (Rename w _ _); cbn; by eexists.
Qed.

Lemma syscalls_under_rlock (n : nat) (wr : bool) (tr : list event) :
  forallb mutex.is_syscall tr = true →
  mutex.syscalls_when mutex.read_held (mutex.mk (S n) wr) (tr ++ [RUnlock]) = true.
Proof.
  induction tr as [|e tr IH]; intros Hall; [done|].
  cbn in Hall. apply andb_true_iff in Hall as [He Hall].
  destruct e; try discriminate He. cbn. by apply IH.
Qed.

Lemma Persist_eq (w : World) (s : store.Store) :
  store.Persist w s =
  let r := store.SaveData w (PersistentData.mk (store.users s) (store.tasks s)) in
  (r.1, s, RLock :: r.2 ++ [RUnlock]).
Proof.
  unfold store.Persist. run_method.
  by destruct (store.SaveData w _) as [err tr].
Qed.

(** C2, as the code has it.  [Persist] takes the read lock, makes every
    system call of [SaveData] with the read lock held, and releases the lock
    last, when [SaveData] has returned (the unlock is deferred).  It makes
    at least one system call, so it does perform file I/O under the lock;
    it never takes the write lock and leaves the store as it was. *)
Theorem Persist_io_under_read_lock (w : World) (s : store.Store) :
  let r := store.Persist w s in
  let saved := store.SaveData w (PersistentData.mk (store.users s) (store.tasks s)) in
  store.events r = RLock :: saved.2 ++ [RUnlock]
  ∧ store.result r = saved.1
  ∧ store.after r = s
  ∧ Sys (SysMkdirAll store.dataFileDir) ∈ store.events r
  ∧ mutex.all_io_under_rlock (store.events r) = true
  ∧ mutex.no_io_under_lock (store.events r) = false
  ∧ Lock ∉ store.events r.
Proof.
  intros r saved. subst r saved. rewrite Persist_eq. cbn zeta.
  unfold store.events, store.result, store.after. cbn [fst snd].
  destruct (SaveData_events w (PersistentData.mk (store.users s) (store.tasks s)))
    as (tr & -> & Hsys).
  split_and!; try done.
  - apply list_elem_of_In. right. by left.
  - unfold mutex.all_io_under_rlock. cbn. by apply syscalls_under_rlock.
  - intros Hin. apply list_elem_of_In in Hin.
    destruct Hin as [Hin|[Hin|Hin]]; try discriminate Hin.
    apply in_app_or in Hin as [Hin|[Hin|[]]]; [|discriminate Hin].
    rewrite forallb_forall in Hsys. by specialize (Hsys _ Hin).
Qed.

(** C2 as the specification words it fails: on a first run [Persist]
    creates the directory, writes the temporary file and renames it between
    [RLock] and [RUnlock]. *)
Lemma Persist_io_while_locked :
  store.events (store.Persist examples.first_run store.defaultStore)
  = [RLock;
     Sys (SysMkdirAll "data");
     Sys (SysWriteFile "data/data.json.tmp" []);
     Sys (SysRename "data/data.json.tmp" "data/data.json");
     RUnlock]
  ∧ mutex.no_io_under_lock
      (store.events (store.Persist examples.first_run store.defaultStore)) = false.
Proof. split; reflexivity. Qed.

(** The methods that change the store make no system call: they start
    [persistAsync] and return. *)
Lemma mutations_make_no_syscall (s : store.Store) :
  (∀ name email role,
     store.events (store.CreateUser name email role s) = [Lock; Go go_persistAsync; Unlock])
  ∧ (∀ title status userID,
       store.events (store.CreateTask title status userID s)
       = [Lock; Go go_persistAsync; Unlock])
  ∧ (∀ id title status userID,
       forallb (λ e, negb (mutex.is_syscall e))
               (store.events (store.UpdateTask id title status userID s)) = true).
Proof.
  split_and!.
  - intros. by rewrite CreateUser_eq.
  - intros. by rewrite CreateTask_eq.
  - intros id title status userID.
    destruct (list_find (λ t, Task.ID t = id) (store.tasks s)) as [[i t0]|] eqn:Hfind.
    + by rewrite (UpdateTask_found _ _ _ _ _ _ _ Hfind).
    + by rewrite (UpdateTask_missing _ _ _ _ _ Hfind).
Qed.

(** ** What callers hold after a read *)

Lemma elems_length {A} (arrays : gmap alias.loc (list A)) (sl : alias.slice) :
  (length (alias.elems arrays sl) <= alias.slen sl)%nat.
Proof. unfold alias.elems. rewrite length_take. lia. Qed.

(** Storing at an index the slice shows is an update of what it shows. *)
Lemma elems_store {A} (arrays : gmap alias.loc (list A)) (sl : alias.slice)
    (i : nat) (v : A) :
  (i < alias.slen sl)%nat →
  alias.elems (alter (λ a, <[i := v]> a) (alias.array sl) arrays) sl
  = <[i := v]> (alias.elems arrays sl).
Proof.
  intros Hi. unfold alias.elems. rewrite lookup_alter_eq.
  destruct (arrays !! alias.array sl) as [a|]; cbn; [|by rewrite take_nil].
  by rewrite take_insert_lt.
Qed.

Section references.
Variables (h : alias.Heap) (s : alias.Store).

(** The value-level methods are what the references show. *)
Lemma GetUsers_shows :
  alias.elems (alias.user_arrays h) (alias.GetUsers h s)
  = store.result (store.GetUsers (alias.contents h s)).
Proof. reflexivity. Qed.

Lemma GetUserByID_shows (id : Z) (p : alias.pointer) :
  alias.GetUserByID h s id = Some p →
  ∃ u, store.result (store.GetUserByID id (alias.contents h s)) = Some (alias.index p, u)
       ∧ alias.load_user h p = Some u
       ∧ alias.base p = alias.array (alias.users s)
       ∧ (alias.index p < alias.slen (alias.users s))%nat.
Proof.
  unfold alias.GetUserByID. intros Hp.
  destruct (list_find _ _) as [[i u]|] eqn:Hfind; [|discriminate Hp].
  cbn in Hp. injection Hp as <-. exists u. cbn [alias.index alias.base].
  apply list_find_Some in Hfind as Hfind'. destruct Hfind' as (Hi & _ & _).
  split_and!; try done.
  - unfold alias.load_user. cbn [alias.index alias.base].
    unfold alias.elems in Hi. apply lookup_take_Some in Hi as [Hi _].
    by destruct (alias.user_arrays h !! alias.array (alias.users s)).
  - apply lookup_lt_Some in Hi. pose proof (elems_length (alias.user_arrays h) (alias.users s)). lia.
Qed.

Lemma GetTaskByID_shows (id : Z) (p : alias.pointer) :
  alias.GetTaskByID h s id = Some p →
  ∃ t, store.result (store.GetTaskByID id (alias.contents h s)) = Some (alias.index p, t)
       ∧ alias.load_task h p = Some t
       ∧ alias.base p = alias.array (alias.tasks s)
       ∧ (alias.index p < alias.slen (alias.tasks s))%nat.
Proof.
  unfold alias.GetTaskByID. intros Hp.
  destruct (list_find _ _) as [[i t]|] eqn:Hfind; [|discriminate Hp].
  cbn in Hp. injection Hp as <-. exists t. cbn [alias.index alias.base].
  apply list_find_Some in Hfind as Hfind'. destruct Hfind' as (Hi & _ & _).
  split_and!; try done.
  - unfold alias.load_task. cbn [alias.index alias.base].
    unfold alias.elems in Hi. apply lookup_take_Some in Hi as [Hi _].
    by destruct (alias.task_arrays h !! alias.array (alias.tasks s)).
  - apply lookup_lt_Some in Hi. pose proof (elems_length (alias.task_arrays h) (alias.tasks s)). lia.
Qed.

(** C5, as the code has it.  What [GetUsers], [GetUserByID] and
    [GetTaskByID] return refers to the store's own backing arrays: a store
    through the pointer [GetUserByID] or [GetTaskByID] returned, or through
    an element of the slice [GetUsers] returned, replaces that element of
    the store's collection.  (The other collection is not touched.) *)
Theorem returned_references_alias_the_store :
  (∀ id p v,
     alias.GetUserByID h s id = Some p →
     alias.contents (alias.store_user h p v) s
     = store.mkStore (<[alias.index p := v]> (store.users (alias.contents h s)))
                     (store.tasks (alias.contents h s))
     ∧ store.users (alias.contents (alias.store_user h p v) s) !! alias.index p = Some v)
  ∧ (∀ id p v,
       alias.GetTaskByID h s id = Some p →
       alias.contents (alias.store_task h p v) s
       = store.mkStore (store.users (alias.contents h s))
                       (<[alias.index p := v]> (store.tasks (alias.contents h s)))
       ∧ store.tasks (alias.contents (alias.store_task h p v) s) !! alias.index p = Some v)
  ∧ (∀ i p v u,
       alias.at_index (alias.GetUsers h s) i = Some p →
       alias.load_user h p = Some u →
       alias.contents (alias.store_user h p v) s
       = store.mkStore (<[i := v]> (store.users (alias.contents h s)))
                       (store.tasks (alias.contents h s))
       ∧ store.users (alias.contents (alias.store_user h p v) s) !! i = Some v).
Proof.
  split_and!.
  - intros id p v Hp.
    destruct (GetUserByID_shows id p Hp) as (u & Hget & Hload & Hbase & Hlt).
    assert (Hc : alias.contents (alias.store_user h p v) s
                 = store.mkStore (<[alias.index p := v]> (store.users (alias.contents h s)))
                     (store.tasks (alias.contents h s))).
    { unfold alias.contents, alias.store_user.
      cbn [alias.user_arrays alias.task_arrays store.users store.tasks].
      rewrite Hbase. by rewrite elems_store. }
    split; [exact Hc|]. rewrite Hc. cbn [store.users].
    apply list_lookup_insert_eq.
    unfold store.GetUserByID in Hget. revert Hget. run_method. intros Hget.
    apply list_find_Some in Hget as (Hi & _). by eapply lookup_lt_Some.
  - intros id p v Hp.
    destruct (GetTaskByID_shows id p Hp) as (t & Hget & Hload & Hbase & Hlt).
    assert (Hc : alias.contents (alias.store_task h p v) s
                 = store.mkStore (store.users (alias.contents h s))
                     (<[alias.index p := v]> (store.tasks (alias.contents h s)))).
    { unfold alias.contents, alias.store_task.
      cbn [alias.user_arrays alias.task_arrays store.users store.tasks].
      rewrite Hbase. by rewrite elems_store. }
    split; [exact Hc|]. rewrite Hc. cbn [store.tasks].
    apply list_lookup_insert_eq.
    unfold store.GetTaskByID in Hget. revert Hget. run_method. intros Hget.
    apply list_find_Some in Hget as (Hi & _). by eapply lookup_lt_Some.
  - intros i p v u Hp Hload. unfold alias.at_index, alias.GetUsers in Hp.
    case_decide as Hlt; [|discriminate Hp]. injection Hp as <-.
    unfold alias.load_user in Hload. cbn [alias.base alias.index] in Hload.
    assert (Hc : alias.contents (alias.store_user h (alias.mkPointer (alias.array (alias.users s)) i) v) s
                 = store.mkStore (<[i := v]> (store.users (alias.contents h s)))
                     (store.tasks (alias.contents h s))).
    { unfold alias.contents, alias.store_user.
      cbn [alias.user_arrays alias.task_arrays store.users store.tasks alias.base alias.index].
      by rewrite elems_store. }
    split; [exact Hc|]. rewrite Hc. cbn [store.users alias.contents].
    apply list_lookup_insert_eq. unfold alias.elems.
    destruct (alias.user_arrays h !! alias.array (alias.users s)) as [a|]; [|discriminate Hload].
    cbn in Hload |- *. apply lookup_lt_Some in Hload. rewrite length_take. lia.
Qed.

End references.

Lemma returned_references_alias_the_store_witness :
  alias.GetUserByID examples.heap1 examples.store1 1 = Some (alias.mkPointer 0%nat 0%nat)
  ∧ store.users
      (alias.contents
         (alias.store_user examples.heap1 (alias.mkPointer 0%nat 0%nat) examples.mallory)
         examples.store1)
    !! 0%nat = Some examples.mallory.
Proof.
  assert (Hp : alias.GetUserByID examples.heap1 examples.store1 1
               = Some (alias.mkPointer 0%nat 0%nat)) by (by vm_compute).
  split; [exact Hp|].
  exact (proj2 (proj1 (returned_references_alias_the_store examples.heap1 examples.store1)
                  1 (alias.mkPointer 0%nat 0%nat) examples.mallory Hp)).
Defined.

(** C5 as the specification words it fails: a caller that stores through
    the pointer [GetUserByID] returned changes the store's user, and one
    that stores through [GetTaskByID]'s changes the store's task. *)
Lemma returned_pointer_mutates_store :
  alias.GetUserByID examples.heap1 examples.store1 1 = Some (alias.mkPointer 0%nat 0%nat)
  ∧ alias.contents examples.heap1 examples.store1
    = store.mkStore [examples.john] [examples.task1]
  ∧ alias.contents
      (alias.store_user examples.heap1 (alias.mkPointer 0%nat 0%nat) examples.mallory)
      examples.store1
    = store.mkStore [examples.mallory] [examples.task1]
  ∧ alias.contents
      (alias.store_user examples.heap1 (alias.mkPointer 0%nat 0%nat) examples.mallory)
      examples.store1
    ≠ alias.contents examples.heap1 examples.store1.
Proof.
  split_and!; by vm_compute.
Qed.

(** * Further properties of the store *)

(** ** Lookups *)

(** [GetUserByID] and [GetTaskByID] return nil exactly when no record has
    the identifier, and otherwise the first record that has it, at its
    place in the collection. *)
Theorem GetByID_first_match (s : store.Store) (id : Z) :
  (store.result (store.GetUserByID id s) = None ↔ id ∉ user_ids s)
  ∧ (∀ i u, store.result (store.GetUserByID id s) = Some (i, u) ↔
            store.users s !! i = Some u ∧ User.ID u = id
            ∧ ∀ j v, store.users s !! j = Some v → (j < i)%nat → User.ID v ≠ id)
  ∧ (store.result (store.GetTaskByID id s) = None ↔ id ∉ task_ids s)
  ∧ (∀ i t, store.result (store.GetTaskByID id s) = Some (i, t) ↔
            store.tasks s !! i = Some t ∧ Task.ID t = id
            ∧ ∀ j v, store.tasks s !! j = Some v → (j < i)%nat → Task.ID v ≠ id).
Proof.
  unfold store.GetUserByID, store.GetTaskByID. run_method. split_and!.
  - rewrite list_find_None, Forall_forall. unfold user_ids. rewrite list_elem_of_fmap.
    split; [intros H (u & -> & Hu); by apply (H u)|intros H u Hu Hid; apply H; by exists u].
  - intros i u. by rewrite list_find_Some.
  - rewrite list_find_None, Forall_forall. unfold task_ids. rewrite list_elem_of_fmap.
    split; [intros H (t & -> & Ht); by apply (H t)|intros H t Ht Hid; apply H; by exists t].
  - intros i t. by rewrite list_find_Some.
Qed.

(** [UserExistsByEmail] answers whether some user has exactly this email
    (byte for byte, so case matters). *)
Theorem UserExistsByEmail_exact (s : store.Store) (email : string) :
  store.result (store.UserExistsByEmail email s) = true
  ↔ email ∈ (User.Email <$> store.users s).
Proof.
  unfold store.UserExistsByEmail. run_method.
  rewrite existsb_exists, list_elem_of_fmap.
  split.
  - intros (u & Hu & Heq). apply String.eqb_eq in Heq. exists u.
    split; [done|]. by apply list_elem_of_In.
  - intros (u & -> & Hu). exists u. split; [by apply list_elem_of_In|].
    apply String.eqb_refl.
Qed.

(** After [CreateUser] the new email exists, and every other email exists
    exactly if it did before. *)
Theorem UserExistsByEmail_after_CreateUser
    (s : store.Store) (name email role email' : string) :
  let s' := store.after (store.CreateUser name email role s) in
  store.result (store.UserExistsByEmail email' s')
  = String.eqb email' email || store.result (store.UserExistsByEmail email' s).
Proof.
  intros s'. subst s'. rewrite CreateUser_eq.
  unfold store.UserExistsByEmail. run_method. cbn [store.users].
  rewrite existsb_app. cbn [existsb User.Email]. rewrite orb_false_r, orb_comm.
  f_equal. apply String.eqb_sym.
Qed.

(** ** Creation and update, then lookup *)

(** Below the largest [int] the identifier given to a new record is above
    every identifier present (whatever their sign). *)
Lemma new_id_above (ids : list Z) :
  Forall (λ x, x < goint.max_int) ids →
  Forall (λ x, x < goint.wrap (loop_maxID ids 0 + 1)) ids.
Proof.
  intros Hlt. destruct (loop_maxID_bounds ids) as (Hm0 & Hmax & Hmem).
  assert (Hm : loop_maxID ids 0 < goint.max_int).
  { destruct Hmem as [->|Hin]; [by vm_compute|].
    rewrite Forall_forall in Hlt. by apply Hlt. }
  rewrite wrap_in_range by (unfold goint.in_range, goint.min_int; lia).
  eapply Forall_impl; [exact Hmax|]. simpl. intros; lia.
Qed.

Lemma list_find_fresh_snoc {A} (P : A → Prop) `{∀ x, Decision (P x)} (l : list A) (x : A) :
  Forall (λ y, ¬ P y) l → P x → list_find P (l ++ [x]) = Some (length l, x).
Proof.
  intros Hl Hx. apply list_find_Some. split_and!.
  - by rewrite lookup_app_r, Nat.sub_diag.
  - done.
  - intros j y Hj Hlt. rewrite lookup_app_l in Hj by done.
    rewrite Forall_forall in Hl. apply Hl. by eapply list_elem_of_lookup_2.
Qed.

(** A record created while the collection's identifiers are below the
    largest [int] is the one its identifier finds afterwards, at the end
    of the collection; the records that were there are found as before. *)
Theorem create_then_get (s : store.Store) :
  (∀ name email role,
     Forall (λ x, x < goint.max_int) (user_ids s) →
     let r := store.CreateUser name email role s in
     store.result (store.GetUserByID (User.ID (store.result r)) (store.after r))
     = Some (length (store.users s), store.result r)
     ∧ ∀ id, id ∈ user_ids s →
             store.result (store.GetUserByID id (store.after r))
             = store.result (store.GetUserByID id s))
  ∧ (∀ title status userID,
       Forall (λ x, x < goint.max_int) (task_ids s) →
       let r := store.CreateTask title status userID s in
       store.result (store.GetTaskByID (Task.ID (store.result r)) (store.after r))
       = Some (length (store.tasks s), store.result r)
       ∧ ∀ id, id ∈ task_ids s →
               store.result (store.GetTaskByID id (store.after r))
               = store.result (store.GetTaskByID id s)).
Proof.
  split.
  - intros name email role Hlt r. subst r. rewrite CreateUser_eq. cbn zeta.
    unfold store.GetUserByID. run_method. cbn [store.users User.ID].
    pose proof (new_id_above _ Hlt) as Habove. split.
    + apply list_find_fresh_snoc; [|done].
      apply Forall_forall. intros y Hy Heq.
      rewrite Forall_forall in Habove.
      pose proof (Habove (User.ID y) (list_elem_of_fmap_2 _ _ _ Hy)) as Hy'.
      rewrite Heq in Hy'. lia.
    + intros id Hin. apply list_elem_of_fmap in Hin as (u & -> & Hu).
      destruct (list_find_elem_of (λ v, User.ID v = User.ID u) _ _ Hu eq_refl) as [[i v] Hfind].
      rewrite Hfind. by apply list_find_app_l.
  - intros title status userID Hlt r. subst r. rewrite CreateTask_eq. cbn zeta.
    unfold store.GetTaskByID. run_method. cbn [store.tasks Task.ID].
    pose proof (new_id_above _ Hlt) as Habove. split.
    + apply list_find_fresh_snoc; [|done].
      apply Forall_forall. intros y Hy Heq.
      rewrite Forall_forall in Habove.
      pose proof (Habove (Task.ID y) (list_elem_of_fmap_2 _ _ _ Hy)) as Hy'.
      rewrite Heq in Hy'. lia.
    + intros id Hin. apply list_elem_of_fmap in Hin as (u & -> & Hu).
      destruct (list_find_elem_of (λ v, Task.ID v = Task.ID u) _ _ Hu eq_refl) as [[i v] Hfind].
      rewrite Hfind. by apply list_find_app_l.
Qed.

Lemma create_then_get_witness :
  Forall (λ x, x < goint.max_int) (user_ids store.defaultStore)
  ∧ store.result
      (store.GetUserByID 4
         (store.after (store.CreateUser "Alice Cooper" "alice@example.com" "manager"
                         store.defaultStore)))
    = Some (3%nat, User.mk 4 "Alice Cooper" "alice@example.com" "manager").
Proof.
  assert (Hlt : Forall (λ x, x < goint.max_int) (user_ids store.defaultStore)).
  { repeat constructor; by vm_compute. }
  split; [exact Hlt|].
  exact (proj1 (proj1 (create_then_get store.defaultStore)
                  "Alice Cooper" "alice@example.com" "manager" Hlt)).
Defined.

(** Identifiers stay unique: a creation below the largest [int] keeps the
    identifiers of its collection distinct, and [UpdateTask] never changes
    an identifier. *)
Theorem identifiers_stay_unique (s : store.Store) :
  (∀ name email role,
     Forall (λ x, x < goint.max_int) (user_ids s) → NoDup (user_ids s) →
     NoDup (user_ids (store.after (store.CreateUser name email role s))))
  ∧ (∀ title status userID,
       Forall (λ x, x < goint.max_int) (task_ids s) → NoDup (task_ids s) →
       NoDup (task_ids (store.after (store.CreateTask title status userID s))))
  ∧ (∀ id title status userID,
       task_ids (store.after (store.UpdateTask id title status userID s)) = task_ids s).
Proof.
  split_and!.
  - intros name email role Hlt Hnd. rewrite CreateUser_eq. unfold user_ids in *.
    cbn. rewrite fmap_app. cbn. apply NoDup_app. split_and!; [done| |apply NoDup_singleton].
    intros x Hx Hx'. apply list_elem_of_singleton in Hx'. subst x.
    pose proof (new_id_above _ Hlt) as Habove. rewrite Forall_forall in Habove.
    specialize (Habove _ Hx). unfold user_ids in Habove. lia.
  - intros title status userID Hlt Hnd. rewrite CreateTask_eq. unfold task_ids in *.
    cbn. rewrite fmap_app. cbn. apply NoDup_app. split_and!; [done| |apply NoDup_singleton].
    intros x Hx Hx'. apply list_elem_of_singleton in Hx'. subst x.
    pose proof (new_id_above _ Hlt) as Habove. rewrite Forall_forall in Habove.
    specialize (Habove _ Hx). unfold task_ids in Habove. lia.
  - intros id title status userID.
    destruct (list_find (λ t, Task.ID t = id) (store.tasks s)) as [[i t0]|] eqn:Hfind.
    + rewrite (UpdateTask_found _ _ _ _ _ _ _ Hfind). unfold task_ids. cbn.
      apply list_find_Some in Hfind as (Hi & _ & _).
      rewrite list_fmap_insert. apply list_insert_id.
      rewrite list_lookup_fmap, Hi. reflexivity.
    + by rewrite (UpdateTask_missing _ _ _ _ _ Hfind).
Qed.

Lemma identifiers_stay_unique_witness :
  NoDup (user_ids (store.after (store.CreateUser "Alice Cooper" "alice@example.com" "manager"
                                  store.defaultStore))).
Proof.
  apply (proj1 (identifiers_stay_unique store.defaultStore)).
  - repeat constructor; by vm_compute.
  - apply NoDup_ListNoDup. repeat constructor; cbn; intuition discriminate.
Defined.

(** After [UpdateTask] of an identifier present, [GetTaskByID] of it
    returns what [UpdateTask] returned; the same update once more changes
    nothing; and an update that supplies no field leaves the store as it
    was, yet still starts [persistAsync]. *)
Theorem update_then_get
    (s : store.Store) (id : Z) (title status : option string) (userID : option Z) :
  id ∈ task_ids s →
  let r := store.UpdateTask id title status userID s in
  store.result (store.GetTaskByID id (store.after r)) = store.result r
  ∧ store.UpdateTask id title status userID (store.after r)
    = (store.result r, store.after r, store.events r)
  ∧ store.after (store.UpdateTask id None None None s) = s
  ∧ store.events (store.UpdateTask id None None None s) = [Lock; Go go_persistAsync; Unlock].
Proof.
  intros Hin r.
  apply list_elem_of_fmap in Hin as (t0 & Hid0 & Hin0).
  destruct (list_find_elem_of (λ t, Task.ID t = id) _ _ Hin0 (eq_sym Hid0)) as [[i t] Hfind].
  pose proof Hfind as (Hi & Hid & Hfirst)%list_find_Some.
  pose proof (lookup_lt_Some _ _ _ Hi) as Hlt.
  assert (Hfind' : ∀ a b c,
            list_find (λ t, Task.ID t = id) (<[i := spec.updated a b c t]> (store.tasks s))
            = Some (i, spec.updated a b c t)).
  { intros a b c. apply list_find_Some. split_and!.
    - by apply list_lookup_insert_eq.
    - done.
    - intros j y Hj Hji. rewrite list_lookup_insert_ne in Hj by lia. by eapply Hfirst. }
  subst r. rewrite (UpdateTask_found _ _ _ _ _ _ _ Hfind).
  unfold store.result, store.after, store.events. cbn [fst snd].
  split_and!.
  - unfold store.GetTaskByID. run_method. cbn [store.tasks]. apply Hfind'.
  - rewrite (UpdateTask_found id title status userID _ i (spec.updated title status userID t));
      [|cbn [store.tasks]; apply Hfind'].
    cbn [store.users store.tasks]. rewrite list_insert_insert_eq.
    assert (Hidem : spec.updated title status userID (spec.updated title status userID t)
                    = spec.updated title status userID t)
      by (by destruct title, status, userID, t).
    by rewrite Hidem.
  - rewrite (UpdateTask_found _ _ _ _ _ _ _ Hfind). cbn [fst snd].
    assert (Hsame : spec.updated None None None t = t) by (by destruct t).
    rewrite Hsame, list_insert_id by done. by destruct s.
  - by rewrite (UpdateTask_found _ _ _ _ _ _ _ Hfind).
Qed.

Lemma update_then_get_witness :
  1 ∈ task_ids store.defaultStore
  ∧ store.result
      (store.GetTaskByID 1
         (store.after (store.UpdateTask 1 None (Some "completed") None store.defaultStore)))
    = Some (0%nat, Task.mk 1 "Implement authentication" "completed" 1).
Proof.
  assert (Hin : 1 ∈ task_ids store.defaultStore).
  { apply list_elem_of_In. vm_compute. tauto. }
  split; [exact Hin|].
  exact (proj1 (update_then_get store.defaultStore 1 None (Some "completed") None Hin)).
Defined.

(** ** Statistics and listings agree *)

(** Each status count of [GetStats] is the length of what [GetTasks]
    lists for that status with no user filter, and the task total is the
    length of the unfiltered listing. *)
Theorem stats_agree_with_listings (s : store.Store) :
  len (store.tasks s) <= goint.max_int →
  let stats := store.result (store.GetStats s) in
  StatsResponse.Tasks_Total stats = len (store.result (store.GetTasks "" "" s))
  ∧ StatsResponse.Tasks_Pending stats = len (store.result (store.GetTasks "pending" "" s))
  ∧ StatsResponse.Tasks_InProgress stats
    = len (store.result (store.GetTasks "in-progress" "" s))
  ∧ StatsResponse.Tasks_Completed stats
    = len (store.result (store.GetTasks "completed" "" s)).
Proof.
  intros Hlen stats. subst stats. unfold store.GetStats, store.GetTasks. run_method.
  rewrite GetStats_loop by (cbn; first [lia | exact Hlen]).
  rewrite !GetTasks_loop.
  cbn [app StatsResponse.Users_Total StatsResponse.Tasks_Total StatsResponse.Tasks_Pending
       StatsResponse.Tasks_InProgress StatsResponse.Tasks_Completed
       StatsResponse.zero StatsResponse.set_Users_Total StatsResponse.set_Tasks_Total].
  rewrite !Z.add_0_l. unfold spec.count_status.
  split_and!; unfold len; do 2 f_equal.
  - symmetry. clear. induction (store.tasks s) as [|t ts IH]; [done|].
    rewrite filter_cons_True; [by rewrite IH|]. split; by left.
  - apply list_filter_iff. intros t. unfold spec.task_matches.
    split; [intros ?; split; [by right|by left]|intros [[?|?] _]; done].
  - apply list_filter_iff. intros t. unfold spec.task_matches.
    split; [intros ?; split; [by right|by left]|intros [[?|?] _]; done].
  - apply list_filter_iff. intros t. unfold spec.task_matches.
    split; [intros ?; split; [by right|by left]|intros [[?|?] _]; done].
Qed.

Lemma stats_agree_with_listings_witness :
  len (store.tasks store.defaultStore) <= goint.max_int
  ∧ StatsResponse.Tasks_Pending (store.result (store.GetStats store.defaultStore))
    = len (store.result (store.GetTasks "pending" "" store.defaultStore)).
Proof.
  assert (Hlen : len (store.tasks store.defaultStore) <= goint.max_int) by (by vm_compute).
  split; [exact Hlen|].
  exact (proj1 (proj2 (stats_agree_with_listings store.defaultStore Hlen))).
Defined.

(** * Further properties of the cache *)

Section cache_facts.
Context {V : Type}.
Implicit Types (c : cache.Cache V) (key : string) (now : cache.Time).

Lemma Invalidate_lookup (keys : list string) (m : gmap string (cache.Entry V)) key :
  fold_left (λ m key, delete key m) keys m !! key
  = if decide (key ∈ keys) then None else m !! key.
Proof.
  revert m. induction keys as [|k keys IH]; intros m; cbn [fold_left].
  - by rewrite decide_False by (apply not_elem_of_nil).
  - rewrite IH. destruct (decide (key = k)) as [->|Hne].
    + rewrite lookup_delete_eq. rewrite (decide_True (P := k ∈ k :: keys)) by (by left).
      by case_decide.
    + rewrite lookup_delete_ne by done.
      destruct (decide (key ∈ keys)) as [Hin|Hnin].
      * by rewrite decide_True by (by right).
      * rewrite decide_False; [done|]. by intros [?|?]%elem_of_cons.
Qed.

(** [Get] counts exactly one hit or one miss and changes nothing else: in
    particular it leaves an expired entry in the map.  It hits exactly when
    the key has an entry whose expiry the clock has not passed. *)
Theorem Get_counts_and_keeps_entries c key now :
  let r := cache.Get now key c in
  cache.entries r.2 = cache.entries c
  ∧ cache.ttl r.2 = cache.ttl c
  ∧ (r.1.2 = true ↔
     ∃ e, cache.entries c !! key = Some e ∧ now <= cache.ExpiresAt e
          ∧ r.1.1 = Some (cache.Data e))
  ∧ (r.1.2 = true →
     cache.hits r.2 = goint.wrap (cache.hits c + 1) ∧ cache.misses r.2 = cache.misses c)
  ∧ (r.1.2 = false →
     r.1.1 = None
     ∧ cache.misses r.2 = goint.wrap (cache.misses c + 1) ∧ cache.hits r.2 = cache.hits c).
Proof.
  intros r. subst r. unfold cache.Get, cache.After.
  destruct (cache.entries c !! key) as [e|] eqn:He; cbn.
  - destruct (Z.gtb_spec now (cache.ExpiresAt e)); cbn; split_and!; try done.
    + split; [done|]. intros (e' & [= <-] & Hle & _). lia.
    + split; [|done]. intros _. exists e. split_and!; [done|lia|done].
  - split_and!; try done. split; [done|]. by intros (e' & [=] & _).
Qed.

(** [Set_] replaces the entry of its key outright (the later of two
    writes wins, with its own expiry), does not touch the counters, and
    does not change what [Get] returns for any other key. *)
Theorem Set_overwrites_one_key c key (data data' : V) (t t' : cache.Time) :
  cache.Set_ t' key data' (cache.Set_ t key data c) = cache.Set_ t' key data' c
  ∧ cache.hits (cache.Set_ t key data c) = cache.hits c
  ∧ cache.misses (cache.Set_ t key data c) = cache.misses c
  ∧ ∀ key' now, key' ≠ key →
      (cache.Get now key' (cache.Set_ t key data c)).1 = (cache.Get now key' c).1.
Proof.
  unfold cache.Set_, cache.set_entries. cbn. split_and!; try done.
  - by rewrite insert_insert_eq.
  - intros key' now Hne. unfold cache.Get. cbn.
    rewrite lookup_insert_ne by done.
    destruct (cache.entries c !! key') as [e|]; [|done].
    by destruct (cache.After now (cache.ExpiresAt e)).
Qed.

(** After [Invalidate] a [Get] of a listed key misses and a [Get] of any
    other key returns what it would have; after [InvalidateAll] every
    [Get] misses.  Neither touches the counters or the TTL. *)
Theorem Invalidate_removes_listed_keys c (keys : list string) key now :
  (key ∈ keys → (cache.Get now key (cache.Invalidate keys c)).1 = (None, false))
  ∧ (key ∉ keys → (cache.Get now key (cache.Invalidate keys c)).1 = (cache.Get now key c).1)
  ∧ (cache.Get now key (cache.InvalidateAll c)).1 = (None, false)
  ∧ cache.hits (cache.Invalidate keys c) = cache.hits c
  ∧ cache.misses (cache.Invalidate keys c) = cache.misses c
  ∧ cache.ttl (cache.Invalidate keys c) = cache.ttl c.
Proof.
  unfold cache.Get, cache.Invalidate, cache.InvalidateAll, cache.set_entries. cbn.
  rewrite Invalidate_lookup, lookup_empty. split_and!; try done.
  - intros Hin. by rewrite decide_True.
  - intros Hnin. rewrite decide_False by done.
    destruct (cache.entries c !! key) as [e|]; [|done].
    by destruct (cache.After now (cache.ExpiresAt e)).
Qed.

(** A tick of [cleanupExpired] keeps exactly the entries whose expiry the
    clock has not passed, each unchanged; a second tick at the same time
    removes nothing more; and no [Get] at that time or later can tell
    whether the tick ran. *)
Theorem cleanupExpired_tick_exact c now :
  (∀ key e, cache.entries (cache.cleanupExpired_tick now c) !! key = Some e
            ↔ cache.entries c !! key = Some e ∧ now <= cache.ExpiresAt e)
  ∧ cache.cleanupExpired_tick now (cache.cleanupExpired_tick now c)
    = cache.cleanupExpired_tick now c
  ∧ ∀ key t, now <= t →
      (cache.Get t key (cache.cleanupExpired_tick now c)).1 = (cache.Get t key c).1.
Proof.
  assert (Hlookup : ∀ key e,
            cache.entries (cache.cleanupExpired_tick now c) !! key = Some e
            ↔ cache.entries c !! key = Some e ∧ now <= cache.ExpiresAt e).
  { intros key e. unfold cache.cleanupExpired_tick, cache.set_entries. cbn.
    rewrite map_lookup_filter_Some. cbn. unfold cache.After.
    destruct (Z.gtb_spec now (cache.ExpiresAt e)); split; intros [? ?]; split; (done || lia). }
  split_and!; [exact Hlookup| |].
  - unfold cache.cleanupExpired_tick at 1. unfold cache.set_entries.
    destruct (cache.cleanupExpired_tick now c) as [m tt h ms] eqn:Hc. cbn. f_equal.
    apply map_eq. intros key. apply option_eq. intros e.
    rewrite map_lookup_filter_Some. cbn.
    pose proof (Hlookup key e) as Hl. cbn in Hl.
    unfold cache.After. split; [by intros [? _]|].
    intros Hm. split; [done|]. apply Hl in Hm as [_ Hm].
    destruct (Z.gtb_spec now (cache.ExpiresAt e)); [lia|done].
  - intros key t Hle. by apply cleanupExpired_tick_Get.
Qed.

(** Expiry is final: once a [Get] has missed, every [Get] of that key at
    the same time or later misses as well, until the key is set again. *)
Theorem Get_miss_is_final c key (t t' : cache.Time) :
  t <= t' →
  (cache.Get t key c).1.2 = false →
  (cache.Get t' key (cache.Get t key c).2).1 = (None, false).
Proof.
  intros Hle. unfold cache.Get, cache.After.
  destruct (cache.entries c !! key) as [e|] eqn:He; cbn; [|by rewrite He].
  destruct (Z.gtb_spec t (cache.ExpiresAt e)); cbn; [|done].
  intros _. rewrite He. destruct (Z.gtb_spec t' (cache.ExpiresAt e)); [done|lia].
Qed.

End cache_facts.

Lemma Get_counts_and_keeps_entries_witness :
  cache.hits (cache.Get 10 "users" (cache.Set_ 0 "users" 7 (cache.New 300))).2 = 1
  ∧ cache.misses (cache.Get 301 "users" (cache.Set_ 0 "users" 7 (cache.New 300))).2 = 1.
Proof.
  split.
  - exact (proj1 (proj1 (proj2 (proj2 (proj2
             (Get_counts_and_keeps_entries
                (cache.Set_ 0 "users" 7 (cache.New 300)) "users" 10)))) eq_refl)).
  - exact (proj1 (proj2 (proj2 (proj2 (proj2 (proj2
             (Get_counts_and_keeps_entries
                (cache.Set_ 0 "users" 7 (cache.New 300)) "users" 301)))) eq_refl))).
Defined.

Lemma Set_overwrites_one_key_witness :
  (cache.Get 5 "stats" (cache.Set_ 1 "users" 8 (cache.Set_ 0 "stats" 7 (cache.New 300)))).1
  = (cache.Get 5 "stats" (cache.Set_ 0 "stats" 7 (cache.New 300))).1.
Proof.
  apply (proj2 (proj2 (proj2 (Set_overwrites_one_key
           (cache.Set_ 0 "stats" 7 (cache.New 300)) "users" 8 8 1 1)))).
  discriminate.
Defined.

Lemma Invalidate_removes_listed_keys_witness :
  (cache.Get 5 "users"
     (cache.Invalidate ["users"; "stats"] (cache.Set_ 0 "users" 7 (cache.New 300)))).1
  = (None, false).
Proof.
  apply (proj1 (Invalidate_removes_listed_keys
                  (cache.Set_ 0 "users" 7 (cache.New 300)) ["users"; "stats"] "users" 5)).
  by left.
Defined.

Lemma cleanupExpired_tick_exact_witness :
  (cache.Get 400 "users"
     (cache.cleanupExpired_tick 350 (cache.Set_ 0 "users" 7 (cache.New 300)))).1
  = (cache.Get 400 "users" (cache.Set_ 0 "users" 7 (cache.New 300))).1.
Proof.
  apply (proj2 (proj2 (cleanupExpired_tick_exact
                         (cache.Set_ 0 "users" 7 (cache.New 300)) 350))).
  by vm_compute.
Defined.

Lemma Get_miss_is_final_witness :
  (cache.Get 500 "users"
     (cache.Get 301 "users" (cache.Set_ 0 "users" 7 (cache.New 300))).2).1
  = (None, false).
Proof.
  apply (Get_miss_is_final (cache.Set_ 0 "users" 7 (cache.New 300)) "users" 301 500).
  - by vm_compute.
  - reflexivity.
Defined.

(** ** Cache keys *)

Lemma colon_split (s1 s2 u1 u2 : string) :
  has_colon s1 = false → has_colon s2 = false →
  s1 +:+ ":" +:+ u1 = s2 +:+ ":" +:+ u2 → s1 = s2 ∧ u1 = u2.
Proof.
  revert s2. induction s1 as [|c s1 IH]; intros [|d s2] H1 H2 Heq; cbn in *.
  - by injection Heq.
  - injection Heq as <- _. by rewrite Ascii.eqb_refl in H2.
  - injection Heq as -> _. by rewrite Ascii.eqb_refl in H1.
  - injection Heq as -> Heq. apply orb_false_iff in H1 as [_ H1].
    apply orb_false_iff in H2 as [_ H2]. destruct (IH _ H1 H2 Heq) as [-> ->]. done.
Qed.

(** The key of a task listing is never the key of the user listing or of
    the statistics, and two task listings whose status filters hold no
    [':'] share a key only if they have the same filters.  (A status
    filter with a [':'] can collide: the key of ["a:b"] and [""] is the key
    of ["a"] and ["b:"].) *)
Theorem TasksKey_distinct (status userID status' userID' : string) :
  cache.TasksKey status userID ≠ cache.UsersKey
  ∧ cache.TasksKey status userID ≠ cache.StatsKey
  ∧ (has_colon status = false → has_colon status' = false →
     cache.TasksKey status userID = cache.TasksKey status' userID' →
     status = status' ∧ userID = userID')
  ∧ cache.TasksKey "a:b" "" = cache.TasksKey "a" "b:".
Proof.
  unfold cache.TasksKey, cache.UsersKey, cache.StatsKey. cbn. split_and!; try done.
  intros H1 H2 Heq. apply (colon_split _ _ _ _ H1 H2). by simplify_eq.
Qed.

Lemma TasksKey_distinct_witness :
  has_colon "pending" = false
  ∧ cache.TasksKey "pending" "1" = "tasks:pending:1"
  ∧ ("pending" = "pending" ∧ "1" = "1").
Proof.
  split; [reflexivity|]. split; [reflexivity|].
  exact (proj1 (proj2 (proj2 (TasksKey_distinct "pending" "1" "pending" "1")))
           eq_refl eq_refl eq_refl).
Defined.

(** ** [validator.Status] *)

(** [Status] accepts exactly the three statuses, which hold no [':'] and
    are the ones [GetStats] counts. *)
Theorem Status_accepts_three (status : string) :
  (validator.Status status = true
   ↔ status = "pending" ∨ status = "in-progress" ∨ status = "completed")
  ∧ (validator.Status status = true → has_colon status = false).
Proof.
  assert (H : validator.Status status = true
              ↔ status = "pending" ∨ status = "in-progress" ∨ status = "completed").
  { unfold validator.Status, validator.validStatuses.
    rewrite !lookup_insert, lookup_singleton.
    repeat case_decide; subst; cbn; intuition congruence. }
  split; [exact H|]. intros Hs. apply H in Hs as [Hs|[Hs|Hs]]; by rewrite Hs.
Qed.

(** * Further properties of persistence *)







(** Start-up only reads: the system calls of [Initialize] are a [Stat]
    of the data file and, if the file exists, one [ReadFile] of it; it
    logs exactly when loading failed. *)
Theorem Initialize_only_reads (w : World) :
  let tr := (store.Initialize w).2 in
  (Stat_IsNotExist w store.dataFilePath = true →
   tr = [Sys (SysStat store.dataFilePath)])
  ∧ (Stat_IsNotExist w store.dataFilePath = false →
     tr = [Sys (SysStat store.dataFilePath); Sys (SysReadFile store.dataFilePath)]
          ++ match (store.LoadData w).1 with inr _ => [LogPrintf] | inl _ => [] end)
  ∧ ∀ f torn, fs.run torn w f tr = f.
Proof.
  intros tr. subst tr. unfold store.Initialize, store.LoadData.
  cbv [mbind mret IO_bind IO_ret io_bind io_ret io_emit].
  destruct (Stat_IsNotExist w store.dataFilePath); cbn.
  - split_and!; try done.
  - destruct (ReadFile w store.dataFilePath) as [data|]; cbn; [|by split_and!].
    destruct (Unmarshal w data) as [d|]; cbn; [|by split_and!].
    destruct ((len (PersistentData.Users d) =? 0) && (len (PersistentData.Tasks d) =? 0));
      cbn; by split_and!.
Qed.

(** * The rate limiter *)

Lemma validRequests_filter (ws : cache.Time) (requests : list cache.Time) :
  middleware.validRequests ws requests = filter (λ x, ws < x) requests.
Proof.
  unfold middleware.validRequests.
  enough (H : ∀ acc, fold_left
                       (λ valid reqTime,
                          if cache.After reqTime ws then valid ++ [reqTime] else valid)
                       requests acc
                     = acc ++ filter (λ x, ws < x) requests) by apply (H []).
  induction requests as [|x l IH]; intros acc; cbn [fold_left].
  - by rewrite app_nil_r.
  - rewrite IH, filter_cons. unfold cache.After.
    destruct (Z.gtb_spec x ws); case_decide; try lia; [by rewrite <- app_assoc|done].
Qed.

Lemma filter_window_later (d t t' : Z) (l : list Z) :
  t <= t' → filter (λ x, t' + d < x) (filter (λ x, t + d < x) l) = filter (λ x, t' + d < x) l.
Proof.
  intros Hle. induction l as [|x l IH]; [done|].
  rewrite !filter_cons. repeat case_decide; try lia; rewrite ?filter_cons;
    repeat case_decide; try lia; by rewrite IH.
Qed.

(** What [Allow] does, with the loop read as a filter. *)
Lemma Allow_eq (now : cache.Time) (ip : string) (rl : middleware.RateLimiter) :
  let valid := filter (λ x, middleware.windowStart rl now < x)
                      (default [] (middleware.requests rl !! ip)) in
  middleware.Allow now ip rl
  = if len valid >=? middleware.limit rl then
      ((false, 0), middleware.set_requests (<[ip := valid]> (middleware.requests rl)) rl)
    else
      ((true, goint.wrap (middleware.limit rl - len (valid ++ [now]))),
       middleware.set_requests (<[ip := valid ++ [now]]> (middleware.requests rl)) rl).
Proof. intros valid. subst valid. unfold middleware.Allow. by rewrite validRequests_filter. Qed.

Lemma admitted_cons (ip : string) (t : cache.Time) (ip0 : string) (ok : bool)
    (reqs : list (cache.Time * string)) (oks : list bool) :
  middleware.admitted ip ((t, ip0) :: reqs) (ok :: oks)
  = (if ok && String.eqb ip0 ip then [t] else []) ++ middleware.admitted ip reqs oks.
Proof. unfold middleware.admitted. cbn. by destruct (ok && String.eqb ip0 ip). Qed.

Lemma Allow_remembers (now : cache.Time) (ip0 : string) (rl : middleware.RateLimiter)
    (A : string → list cache.Time) (T : cache.Time) :
  remembers rl A T → T <= now →
  let r := middleware.Allow now ip0 rl in
  remembers r.2 (λ ip, A ip ++ if r.1.1 && String.eqb ip0 ip then [now] else []) now
  ∧ middleware.limit r.2 = middleware.limit rl
  ∧ middleware.window r.2 = middleware.window rl
  ∧ (r.1.1 = true →
     len (filter (λ x, middleware.windowStart rl now < x) (A ip0 ++ [now]))
     <= middleware.limit rl).
Proof.
  intros Hrem HT r. subst r. rewrite Allow_eq. cbn zeta.
  pose proof (Hrem ip0 now HT) as Hvalid. 
  set (valid := filter (λ x, middleware.windowStart rl now < x)
                       (default [] (middleware.requests rl !! ip0))) in *.
  assert (Hother : ∀ m ip t, ip ≠ ip0 → now <= t →
            filter (λ x, middleware.windowStart rl t < x)
                   (default [] (<[ip0 := m]> (middleware.requests rl) !! ip))
            = filter (λ x, middleware.windowStart rl t < x) (A ip)).
  { intros m ip t Hne Ht. rewrite lookup_insert_ne by done. apply Hrem. lia. }
  destruct (Z.geb_spec (len valid) (middleware.limit rl)) as [Hge|Hlt]; cbn [fst snd].
  - split_and!; try done.
    intros ip t Ht. unfold middleware.windowStart, middleware.set_requests. cbn.
    rewrite app_nil_r. destruct (decide (ip = ip0)) as [->|Hne].
    + rewrite lookup_insert_eq. cbn. subst valid. unfold middleware.windowStart, cache.Add.
      rewrite filter_window_later by done. apply (Hrem ip0 t). lia.
    + by apply Hother.
  - split_and!; try done.
    + intros ip t Ht. unfold middleware.windowStart, middleware.set_requests. cbn.
      destruct (decide (ip = ip0)) as [->|Hne].
      * rewrite lookup_insert_eq, String.eqb_refl. cbn. rewrite !filter_app. f_equal.
        subst valid. unfold middleware.windowStart, cache.Add.
        rewrite filter_window_later by done. apply (Hrem ip0 t). lia.
      * rewrite (proj2 (String.eqb_neq ip0 ip)) by done. rewrite app_nil_r.
        by apply Hother.
    + intros _. unfold cache.Time in *. rewrite filter_app, <- Hvalid. unfold len in *. rewrite length_app.
      pose proof (length_filter (λ x, middleware.windowStart rl now < x) [now]).
      cbn [length] in *. lia.
Qed.

Lemma serve_bound (reqs : list (cache.Time * string)) :
  ∀ (rl : middleware.RateLimiter) (A : string → list cache.Time) (T : cache.Time),
  remembers rl A T →
  StronglySorted Z.le (T :: reqs.*1) →
  ∀ i t ip,
    reqs !! i = Some (t, ip) →
    (middleware.serve reqs rl).1 !! i = Some true →
    len (filter (λ x, middleware.windowStart rl t < x)
                (A ip ++ middleware.admitted ip (take (S i) reqs)
                                             (take (S i) (middleware.serve reqs rl).1)))
    <= middleware.limit rl.
Proof.
  induction reqs as [|[t0 ip0] reqs IH]; intros rl A T Hrem Hsorted i t ip Hi Hok; [done|].
  cbn [middleware.serve fst snd] in Hok |- *.
  apply StronglySorted_inv in Hsorted as [Hsorted HT]. cbn in Hsorted, HT.
  apply Forall_cons in HT as [HT0 HT].
  destruct (Allow_remembers t0 ip0 rl A T Hrem HT0) as (Hrem' & Hlim & Hwin & Hfirst).
  cbn zeta in Hrem', Hlim, Hwin, Hfirst.
  destruct i as [|i]; cbn in Hi, Hok.
  - injection Hi as <- <-. injection Hok as Hok.
    cbn [take]. rewrite take_0, admitted_cons. rewrite Hok, String.eqb_refl. cbn.
    unfold middleware.admitted. cbn. by apply Hfirst.
  - cbn [take]. rewrite admitted_cons, app_assoc.
    assert (Hws : ∀ x, middleware.windowStart rl x
                       = middleware.windowStart (middleware.Allow t0 ip0 rl).2 x)
      by (intros x; unfold middleware.windowStart; by rewrite Hwin).
    rewrite <- Hlim.
    erewrite list_filter_iff; [|intros x; by rewrite (Hws t)].
    apply (IH _ _ t0 Hrem'); [|done|done].
    apply StronglySorted_inv in Hsorted as [Hsorted Hle]. by constructor.
Qed.

(** The guarantee of the limiter.  Serve any sequence of requests whose
    clock readings do not go backwards, starting with a new limiter: for
    every request that is allowed, the requests of the same client allowed
    so far (this one included) with a time after its [windowStart] number
    at most [limit]. *)
Theorem Allow_at_most_limit_per_window
    (limit : Z) (window : cache.Duration) (reqs : list (cache.Time * string)) :
  StronglySorted Z.le reqs.*1 →
  let rl := middleware.NewRateLimiter limit window in
  let oks := (middleware.serve reqs rl).1 in
  ∀ i t ip,
    reqs !! i = Some (t, ip) →
    oks !! i = Some true →
    len (filter (λ x, middleware.windowStart rl t < x)
                (middleware.admitted ip (take (S i) reqs) (take (S i) oks)))
    <= limit.
Proof.
  intros Hsorted rl oks i t ip Hi Hok. subst oks.
  destruct reqs as [|[t0 ip0] reqs]; [done|].
  change limit with (middleware.limit rl).
  apply (serve_bound _ rl (λ _, []) t0); [| |exact Hi|exact Hok].
  - intros ip' t' _. subst rl. cbn. by rewrite lookup_empty.
  - constructor; [done|]. cbn. constructor; [lia|].
    by apply StronglySorted_inv in Hsorted as [_ ?].
Qed.

Lemma Allow_at_most_limit_per_window_witness :
  StronglySorted Z.le [(0, "10.0.0.1"); (10, "10.0.0.1"); (20, "10.0.0.1")].*1
  ∧ (middleware.serve [(0, "10.0.0.1"); (10, "10.0.0.1"); (20, "10.0.0.1")]
       (middleware.NewRateLimiter 2 60)).1 = [true; true; false]
  ∧ len (filter (λ x, middleware.windowStart (middleware.NewRateLimiter 2 60) 10 < x)
           (middleware.admitted "10.0.0.1"
              (take 2 [(0, "10.0.0.1"); (10, "10.0.0.1"); (20, "10.0.0.1")])
              (take 2 (middleware.serve
                         [(0, "10.0.0.1"); (10, "10.0.0.1"); (20, "10.0.0.1")]
                         (middleware.NewRateLimiter 2 60)).1)))
    <= 2.
Proof.
  assert (Hs : StronglySorted Z.le
                 [(0, "10.0.0.1"); (10, "10.0.0.1"); (20, "10.0.0.1")].*1).
  { repeat constructor; by vm_compute. }
  split; [exact Hs|]. split; [reflexivity|].
  exact (Allow_at_most_limit_per_window 2 60
           [(0, "10.0.0.1"); (10, "10.0.0.1"); (20, "10.0.0.1")] Hs
           1%nat 10 "10.0.0.1" eq_refl eq_refl).
Defined.

Lemma Allow_decision (t : cache.Time) (ip : string) (rl rl' : middleware.RateLimiter) :
  middleware.limit rl' = middleware.limit rl →
  middleware.window rl' = middleware.window rl →
  filter (λ x, middleware.windowStart rl t < x) (default [] (middleware.requests rl' !! ip))
  = filter (λ x, middleware.windowStart rl t < x) (default [] (middleware.requests rl !! ip)) →
  (middleware.Allow t ip rl').1 = (middleware.Allow t ip rl).1.
Proof.
  intros Hlim Hwin Hvalid. rewrite !Allow_eq. cbn zeta.
  assert (Hws : middleware.windowStart rl' t = middleware.windowStart rl t)
    by (unfold middleware.windowStart; by rewrite Hwin).
  rewrite Hws, Hlim. unfold cache.Time in *. rewrite Hvalid.
  by destruct (_ >=? _).
Qed.

(** Clients are limited independently: whether a request of one client is
    allowed, and how many it has left, does not depend on the requests
    other clients made before. *)
Theorem Allow_clients_independent
    (t t' : cache.Time) (ip ip' : string) (rl : middleware.RateLimiter) :
  ip' ≠ ip →
  (middleware.Allow t' ip' (middleware.Allow t ip rl).2).1 = (middleware.Allow t' ip' rl).1.
Proof.
  intros Hne. apply Allow_decision.
  - rewrite Allow_eq. cbn zeta. by destruct (_ >=? _).
  - rewrite Allow_eq. cbn zeta. by destruct (_ >=? _).
  - rewrite Allow_eq. cbn zeta. destruct (_ >=? _); cbn; by rewrite lookup_insert_ne.
Qed.

Lemma Allow_clients_independent_witness :
  (middleware.Allow 5 "10.0.0.2"
     (middleware.Allow 1 "10.0.0.1" (middleware.NewRateLimiter 1 60)).2).1
  = (middleware.Allow 5 "10.0.0.2" (middleware.NewRateLimiter 1 60)).1.
Proof.
  apply (Allow_clients_independent 1 5 "10.0.0.1" "10.0.0.2" (middleware.NewRateLimiter 1 60)).
  discriminate.
Defined.

(** A refused request is not recorded: after it, every later request is
    answered as if the refused one had never been made, so a client that
    keeps asking is let in again as soon as its old requests leave the
    window. *)
Theorem refused_request_leaves_no_trace
    (t t' : cache.Time) (ip ip' : string) (rl : middleware.RateLimiter) :
  (middleware.Allow t ip rl).1.1 = false →
  t <= t' →
  (middleware.Allow t' ip' (middleware.Allow t ip rl).2).1 = (middleware.Allow t' ip' rl).1.
Proof.
  intros Hrefused Hle. apply Allow_decision.
  - rewrite Allow_eq. cbn zeta. by destruct (_ >=? _).
  - rewrite Allow_eq. cbn zeta. by destruct (_ >=? _).
  - rewrite Allow_eq in Hrefused |- *. cbn zeta in Hrefused |- *.
    destruct (_ >=? _); [|discriminate Hrefused]. cbn.
    destruct (decide (ip' = ip)) as [->|Hne]; [|by rewrite lookup_insert_ne].
    rewrite lookup_insert_eq. cbn. unfold middleware.windowStart, cache.Add, cache.Time.
    by apply filter_window_later.
Qed.

Lemma refused_request_leaves_no_trace_witness :
  (middleware.Allow 1 "10.0.0.1" (middleware.NewRateLimiter 0 60)).1.1 = false
  ∧ (middleware.Allow 5 "10.0.0.1"
       (middleware.Allow 1 "10.0.0.1" (middleware.NewRateLimiter 0 60)).2).1
    = (middleware.Allow 5 "10.0.0.1" (middleware.NewRateLimiter 0 60)).1.
Proof.
  split; [reflexivity|].
  apply (refused_request_leaves_no_trace 1 5 "10.0.0.1" "10.0.0.1"
           (middleware.NewRateLimiter 0 60)).
  - reflexivity.
  - by vm_compute.
Defined.



(** * The handlers *)

Lemma GetUsers_eq s : store.GetUsers s = (store.users s, s, [RLock; RUnlock]).
Proof. by destruct s. Qed.
Lemma UserExistsByEmail_eq e s :
  store.UserExistsByEmail e s
  = (existsb (λ user, String.eqb (User.Email user) e) (store.users s), s, [RLock; RUnlock]).
Proof. by destruct s. Qed.
Lemma GetUserByID_eq id s :
  store.GetUserByID id s = (list_find (λ u, User.ID u = id) (store.users s), s, [RLock; RUnlock]).
Proof. by destruct s. Qed.
Lemma GetTaskByID_eq id s :
  store.GetTaskByID id s = (list_find (λ t, Task.ID t = id) (store.tasks s), s, [RLock; RUnlock]).
Proof. by destruct s. Qed.
Lemma GetTasks_eq a b s :
  store.GetTasks a b s = (store.result (store.GetTasks a b s), s, [RLock; RUnlock]).
Proof. by destruct s. Qed.
Lemma GetStats_eq s :
  store.GetStats s = (store.result (store.GetStats s), s, [RLock; RUnlock]).
Proof. by destruct s. Qed.

Lemma only_read_locks_2 : Forall (λ e, e = RLock ∨ e = RUnlock) [RLock; RUnlock].
Proof. repeat constructor; by (left + right). Qed.
Lemma only_read_locks_4 :
  Forall (λ e, e = RLock ∨ e = RUnlock) [RLock; RUnlock; RLock; RUnlock].
Proof. repeat constructor; by (left + right). Qed.

Lemma existsb_email (email : string) (us : list User) :
  existsb (λ user, String.eqb (User.Email user) email) us = false →
  email ∉ (User.Email <$> us).
Proof.
  intros Hex (u & -> & Hin)%list_elem_of_fmap.
  assert (existsb (λ user, String.eqb (User.Email user) (User.Email u)) us = true) as Ht.
  { apply existsb_exists. exists u. split; [by apply list_elem_of_In|apply String.eqb_refl]. }
  congruence.
Qed.

Lemma list_find_id_elem {A} (f : A → Z) (l : list A) (id : Z) i x :
  list_find (λ y, f y = id) l = Some (i, x) → id ∈ (f <$> l).
Proof.
  intros (Hi & <- & _)%list_find_Some. apply list_elem_of_fmap. exists x.
  split; [done|]. by eapply list_elem_of_lookup_2.
Qed.

Lemma handleUsers_outcome lib r σ :
  outcome lib handler.api_users r σ (handler.serve lib handler.api_users r σ).
Proof.
  destruct σ as [s c n ev w0]. run_handler.
  destruct (String.eqb_spec (handler.Method r) "GET") as [HG|HnG].
  { unfold cache.Get.
    destruct (cache.entries c !! cache.UsersKey) as [e|] eqn:He.
    - destruct (cache.After (clock lib n) (cache.ExpiresAt e)) eqn:Hex; run_handler.
      + rewrite GetUsers_eq. run_handler.
        eapply (filled _ _ _ _ _ cache.UsersKey); cbn; try reflexivity; try done.
      + eapply (hit _ _ _ _ _ cache.UsersKey); cbn; try reflexivity; try done.
    - run_handler. rewrite GetUsers_eq. run_handler.
      eapply (filled _ _ _ _ _ cache.UsersKey); cbn; try reflexivity; try done. }
  destruct (String.eqb_spec (handler.Method r) "POST") as [HP|HnP].
  { destruct (DecodeCreateUserRequest lib (handler.ReqBody r)) as [req|] eqn:Hd.
    2:{ just_answered 400 (@nil event). }
    validations.
    rewrite UserExistsByEmail_eq. run_handler.
    destruct (existsb _ _) eqn:Hex.
    { just_answered 400 [RLock; RUnlock]. }
    rewrite CreateUser_eq. run_handler.
    apply (created_user _ _ _ _ _ req); cbn; try done.
    - by apply existsb_email.
    - by rewrite CreateUser_eq.
    - by rewrite <- app_assoc. }
  destruct (String.eqb_spec (handler.Method r) "OPTIONS") as [HO|_].
  { just_answered 200 (@nil event). }
  just_answered 405 (@nil event).
Qed.

Lemma handleUserByID_outcome lib r σ :
  outcome lib handler.api_users_id r σ (handler.serve lib handler.api_users_id r σ).
Proof.
  destruct σ as [s c n ev w0]. run_handler.
  destruct (String.eqb_spec (handler.Method r) "GET") as [HG|HnG]; cbn [negb].
  2:{ just_answered 405 (@nil event). }
  destruct (strconv.Atoi _) as [id|].
  2:{ just_answered 400 (@nil event). }
  rewrite GetUserByID_eq. run_handler.
  destruct (list_find _ _) as [[i u]|].
  - just_answered 200 [RLock; RUnlock].
  - just_answered 404 [RLock; RUnlock].
Qed.

Lemma handleTasks_outcome lib r σ :
  outcome lib handler.api_tasks r σ (handler.serve lib handler.api_tasks r σ).
Proof.
  destruct σ as [s c n ev w0]. run_handler.
  destruct (String.eqb_spec (handler.Method r) "GET") as [HG|HnG].
  { unfold cache.Get.
    destruct (cache.entries c !! cache.TasksKey _ _) as [e|] eqn:He.
    - destruct (cache.After (clock lib n) (cache.ExpiresAt e)) eqn:Hex; run_handler.
      + rewrite GetTasks_eq. run_handler.
        eapply (filled _ _ _ _ _ (cache.TasksKey _ _)); cbn; try reflexivity; try done.
      + eapply (hit _ _ _ _ _ (cache.TasksKey _ _)); cbn; try reflexivity; try done.
    - run_handler. rewrite GetTasks_eq. run_handler.
      eapply (filled _ _ _ _ _ (cache.TasksKey _ _)); cbn; try reflexivity; try done. }
  destruct (String.eqb_spec (handler.Method r) "POST") as [HP|HnP].
  { destruct (DecodeCreateTaskRequest lib (handler.ReqBody r)) as [req|] eqn:Hd.
    2:{ just_answered 400 (@nil event). }
    validations.
    rewrite GetUserByID_eq. run_handler.
    destruct (list_find _ _) as [[i u]|] eqn:Hfind.
    2:{ just_answered 400 [RLock; RUnlock]. }
    rewrite CreateTask_eq. run_handler.
    apply (created_task _ _ _ _ _ req); cbn; try done.
    - by eapply (list_find_id_elem User.ID).
    - by rewrite CreateTask_eq.
    - by rewrite <- app_assoc. }
  destruct (String.eqb_spec (handler.Method r) "OPTIONS") as [HO|_].
  { just_answered 200 (@nil event). }
  just_answered 405 (@nil event).
Qed.

Lemma handleStats_outcome lib r σ :
  outcome lib handler.api_stats r σ (handler.serve lib handler.api_stats r σ).
Proof.
  destruct σ as [s c n ev w0]. run_handler.
  destruct (String.eqb_spec (handler.Method r) "GET") as [HG|HnG]; cbn [negb].
  2:{ just_answered 405 (@nil event). }
  unfold cache.Get.
  destruct (cache.entries c !! cache.StatsKey) as [e|] eqn:He.
  - destruct (cache.After (clock lib n) (cache.ExpiresAt e)) eqn:Hex; run_handler.
    + rewrite GetStats_eq. run_handler.
      eapply (filled _ _ _ _ _ cache.StatsKey); cbn; try reflexivity; try done.
    + eapply (hit _ _ _ _ _ cache.StatsKey); cbn; try reflexivity; try done.
  - run_handler. rewrite GetStats_eq. run_handler.
    eapply (filled _ _ _ _ _ cache.StatsKey); cbn; try reflexivity; try done.
Qed.

Lemma handleTaskByID_outcome lib r σ :
  outcome lib handler.api_tasks_id r σ (handler.serve lib handler.api_tasks_id r σ).
Proof.
  destruct σ as [s c n ev w0]. run_handler.
  destruct (String.eqb _ "").
  { just_answered 400 (@nil event). }
  destruct (strconv.Atoi _) as [id|].
  2:{ just_answered 400 (@nil event). }
  destruct (String.eqb_spec (handler.Method r) "GET") as [HG|HnG].
  { rewrite GetTaskByID_eq. run_handler.
    destruct (list_find _ _) as [[i t]|].
    - just_answered 200 [RLock; RUnlock].
    - just_answered 404 [RLock; RUnlock]. }
  destruct (String.eqb_spec (handler.Method r) "PUT") as [HP|HnP].
  { rewrite GetTaskByID_eq. run_handler.
    destruct (list_find _ _) as [[i t]|] eqn:Hfind.
    2:{ just_answered 404 [RLock; RUnlock]. }
    destruct (DecodeUpdateTaskRequest lib (handler.ReqBody r)) as [req|] eqn:Hd.
    2:{ just_answered 400 [RLock; RUnlock]. }
    destruct req as [title status userID]. cbn [UpdateTaskRequest.Title
      UpdateTaskRequest.Status UpdateTaskRequest.UserID].
    assert (Hvalid : (if match status with
                         | Some status => negb (validator.Status status)
                         | None => false
                         end then True
                      else ∀ x, status = Some x → validator.Status x = true)).
    { destruct status as [x|]; [|by intros ? [=]].
      destruct (validator.Status x) eqn:Hx; cbn; [|done]. by intros ? [= <-]. }
    destruct (match status with Some _ => _ | None => _ end).
    { just_answered 400 [RLock; RUnlock]. }
    destruct userID as [userID|]; run_handler.
    - rewrite GetUserByID_eq. run_handler.
      destruct (list_find (λ u, User.ID u = userID) _) as [[j u]|] eqn:Hu.
      2:{ just_answered 400 [RLock; RUnlock; RLock; RUnlock]. }
      destruct (match title with Some _ => _ | None => _ end).
      { just_answered 400 [RLock; RUnlock; RLock; RUnlock]. }
      rewrite (UpdateTask_found _ _ _ _ _ _ _ Hfind). run_handler.
      apply (updated_task _ _ _ _ _ id (UpdateTaskRequest.mk title status (Some userID)));
        cbn; try done.
      + by eapply (list_find_id_elem Task.ID).
      + intros ? [= <-]. by eapply (list_find_id_elem User.ID).
      + by rewrite (UpdateTask_found _ _ _ _ _ _ _ Hfind).
      + exists [RLock; RUnlock; RLock; RUnlock]. rewrite <- !app_assoc.
        split; [done|apply only_read_locks_4].
    - destruct (match title with Some _ => _ | None => _ end).
      { just_answered 400 [RLock; RUnlock]. }
      rewrite (UpdateTask_found _ _ _ _ _ _ _ Hfind). run_handler.
      apply (updated_task _ _ _ _ _ id (UpdateTaskRequest.mk title status None));
        cbn; try done.
      + by eapply (list_find_id_elem Task.ID).
      + by rewrite (UpdateTask_found _ _ _ _ _ _ _ Hfind).
      + exists [RLock; RUnlock]. rewrite <- !app_assoc.
        split; [done|apply only_read_locks_2]. }
  destruct (String.eqb_spec (handler.Method r) "OPTIONS") as [HO|_].
  { just_answered 200 (@nil event). }
  just_answered 405 (@nil event).
Qed.

Lemma serve_outcome lib rt r σ : outcome lib rt r σ (handler.serve lib rt r σ).
Proof.
  destruct rt.
  - apply handleUsers_outcome.
  - apply handleUserByID_outcome.
  - apply handleTasks_outcome.
  - apply handleTaskByID_outcome.
  - apply handleStats_outcome.
Qed.

(** ** Cache keys that collide *)

Lemma has_colon_app (s u : string) : has_colon (s +:+ ":" +:+ u) = true.
Proof.
  induction s as [|c s IH]; [done|].
  change (Ascii.eqb c (Ascii.ascii_of_N 58) || has_colon (s +:+ ":" +:+ u) = true).
  rewrite IH. apply orb_true_r.
Qed.

Lemma colon_cases (s1 s2 u1 u2 : string) :
  s1 +:+ ":" +:+ u1 = s2 +:+ ":" +:+ u2 →
  (s1 = s2 ∧ u1 = u2)
  ∨ (has_colon s2 = true ∧ has_colon u1 = true)
  ∨ (has_colon s1 = true ∧ has_colon u2 = true).
Proof.
  revert s2. induction s1 as [|c s1 IH]; intros [|d s2] Heq; cbn in Heq.
  - left. by simplify_eq.
  - right; left. injection Heq as Hd Hu.
    change (u1 = s2 +:+ ":" +:+ u2) in Hu. subst d u1.
    split; [done|apply has_colon_app].
  - right; right. injection Heq as Hd Hu.
    change (s1 +:+ ":" +:+ u1 = u2) in Hu. subst c u2.
    split; [done|apply has_colon_app].
  - injection Heq as -> Heq. destruct (IH _ Heq) as [[-> ->]|[[H1 H2]|[H1 H2]]].
    + by left.
    + right; left. cbn. rewrite H1. split; [apply orb_true_r|done].
    + right; right. cbn. rewrite H1. split; [apply orb_true_r|done].
Qed.

Lemma digits_colon (s : string) (acc : Z) :
  has_colon s = true → strconv.digits acc s = None.
Proof.
  assert (Hd : strconv.digit (Ascii.ascii_of_N 58) = None) by reflexivity.
  revert acc. induction s as [|c s IH]; intros acc; cbn [has_colon strconv.digits]; [done|].
  destruct (Ascii.eqb_spec c (Ascii.ascii_of_N 58)) as [->|_]; [by rewrite Hd|].
  cbn [orb]. intros Hs. destruct (strconv.digit c); [by apply IH|done].
Qed.

Lemma unsigned_colon (s : string) : has_colon s = true → strconv.unsigned s = None.
Proof. destruct s; [done|]. apply digits_colon. Qed.

Lemma Atoi_colon (s : string) : has_colon s = true → strconv.Atoi s = None.
Proof.
  intros Hs. unfold strconv.Atoi.
  assert (strconv.signed s = None) as ->; [|done].
  destruct s as [|c s]; [done|]. unfold strconv.signed.
  destruct (Ascii.eqb_spec c strconv.minus_sign) as [->|_].
  { cbn in Hs. by rewrite unsigned_colon. }
  destruct (Ascii.eqb_spec c strconv.plus_sign) as [->|_].
  { cbn in Hs. by rewrite unsigned_colon. }
  by apply unsigned_colon.
Qed.

Lemma GetTasks_result (status userID : string) (s : store.Store) :
  store.result (store.GetTasks status userID s)
  = filter (spec.task_matches status userID) (store.tasks s).
Proof. unfold store.GetTasks. run_method. by rewrite GetTasks_loop. Qed.

Lemma GetTasks_colon (status userID : string) (s : store.Store) :
  plain_statuses s →
  has_colon status = true ∨ has_colon userID = true →
  store.result (store.GetTasks status userID s) = [].
Proof.
  intros Hplain Hc. rewrite GetTasks_result. unfold plain_statuses in Hplain.
  induction Hplain as [|t ts Ht _ IH]; [done|].
  rewrite filter_cons_False; [exact IH|].
  intros [Hs Hu]. destruct Hc as [Hc|Hc].
  - destruct Hs as [->| <-]; [discriminate|congruence].
  - destruct Hu as [->|Hu]; [discriminate|]. by rewrite Atoi_colon in Hu.
Qed.

Lemma TasksKey_same_answer (status userID status' userID' : string) (s : store.Store) :
  plain_statuses s →
  cache.TasksKey status userID = cache.TasksKey status' userID' →
  fresh_tasks status userID s = fresh_tasks status' userID' s.
Proof.
  intros Hplain Heq. unfold cache.TasksKey in Heq.
  apply (inj (String.append "tasks:")) in Heq.
  destruct (colon_cases _ _ _ _ Heq) as [[-> ->]|[[H1 H2]|[H1 H2]]]; [done| |];
    unfold fresh_tasks; by rewrite !GetTasks_colon by auto.
Qed.

Lemma fresh_tasks_same_tasks (status userID : string) (s s' : store.Store) :
  store.tasks s = store.tasks s' → fresh_tasks status userID s = fresh_tasks status userID s'.
Proof. intros H. unfold fresh_tasks. by rewrite !GetTasks_result, H. Qed.

(** ** The cache stays coherent *)

Lemma coherent_empty (s : store.Store) (c : cache.Cache handler.value) :
  cache.entries c = ∅ → coherent s c.
Proof. intros H. unfold coherent. rewrite H. split_and!; intros; simplify_map_eq. Qed.

Lemma plain_of_valid (status : string) :
  validator.Status status = true → has_colon status = false.
Proof.
  unfold validator.Status, validator.validStatuses.
  rewrite !lookup_insert, lookup_singleton.
  repeat case_decide; subst; done.
Qed.

Lemma list_find_of_elem {A} (f : A → Z) (l : list A) (id : Z) :
  id ∈ (f <$> l) → ∃ i x, list_find (λ y, f y = id) l = Some (i, x).
Proof.
  intros (x & -> & Hin)%list_elem_of_fmap.
  destruct (list_find (λ y, f y = f x) l) as [[i y]|] eqn:Hf; [eauto|].
  rewrite list_find_None, Forall_forall in Hf. by destruct (Hf x Hin).
Qed.

Lemma TasksKey_other (status userID : string) :
  cache.TasksKey status userID ≠ cache.UsersKey
  ∧ cache.TasksKey status userID ≠ cache.StatsKey.
Proof. unfold cache.TasksKey, cache.UsersKey, cache.StatsKey. cbn. by split. Qed.

Lemma serve_coherent lib rt r σ :
  plain_statuses (handler.st σ) → coherent (handler.st σ) (handler.ca σ) →
  plain_statuses (handler.st (handler.serve lib rt r σ))
  ∧ coherent (handler.st (handler.serve lib rt r σ)) (handler.ca (handler.serve lib rt r σ)).
Proof.
  intros Hplain (HU & HS & HT).
  destruct (serve_outcome lib rt r σ)
    as [code tr Hst Hca _ _ _ _ _
       |key v e _ Hl He Hst Hca _ _ _
       |key v e _ Hl He Hst Hca _ _ _
       |req -> _ _ _ Hst Hca _ _
       |req -> _ _ Hv _ Hst Hca _ _
       |id req -> _ _ Hid Hv _ Hst Hca _ _].
  - rewrite Hst, Hca. done.
  - rewrite Hst. unfold coherent. rewrite Hca. done.
  - rewrite Hst. split; [done|]. unfold coherent. rewrite Hca.
    destruct rt; cbn in Hl; try discriminate; injection Hl as <- <-.
    + split_and!; (intros *;
       first [ rewrite lookup_insert_eq; by intros [= <-]
             | rewrite lookup_insert_ne by
                 first [done | apply TasksKey_other | apply not_eq_sym, TasksKey_other];
               eauto ]).
    + split_and!; [(intros *;
       first [ rewrite lookup_insert_eq; by intros [= <-]
             | rewrite lookup_insert_ne by
                 first [done | apply TasksKey_other | apply not_eq_sym, TasksKey_other];
               eauto ])..|]. intros status userID e0.
      destruct (decide (cache.TasksKey (handler.Query r "status") (handler.Query r "userId")
                        = cache.TasksKey status userID)) as [Hk|Hk].
      * rewrite <- Hk, lookup_insert_eq. intros [= <-]. rewrite He.
        by apply TasksKey_same_answer.
      * rewrite lookup_insert_ne by done. apply HT.
    + split_and!; (intros *;
       first [ rewrite lookup_insert_eq; by intros [= <-]
             | rewrite lookup_insert_ne by
                 first [done | apply TasksKey_other | apply not_eq_sym, TasksKey_other];
               eauto ]).
  - rewrite Hst, Hca, CreateUser_eq.
    unfold store.after, cache.Invalidate, cache.set_entries. cbn.
    split; [done|]. unfold coherent. cbn. split_and!; intros *.
    + rewrite lookup_delete_ne by done. by rewrite lookup_delete_eq.
    + by rewrite lookup_delete_eq.
    + rewrite !lookup_delete_ne by (apply not_eq_sym, TasksKey_other).
      intros He. rewrite (HT _ _ _ He). by apply fresh_tasks_same_tasks.
  - rewrite Hst, Hca, CreateTask_eq. unfold store.after. cbn. split.
    + unfold plain_statuses. cbn. apply Forall_app. split; [done|].
      repeat constructor. by apply plain_of_valid.
    + by apply coherent_empty.
  - destruct (list_find_of_elem Task.ID _ _ Hid) as (i & t & Hfind).
    rewrite Hst, Hca, (UpdateTask_found _ _ _ _ _ _ _ Hfind). unfold store.after. cbn. split.
    + unfold plain_statuses. cbn. apply Forall_insert; [done|].
      cbn. destruct (UpdateTaskRequest.Status req) as [x|] eqn:Hx; cbn.
      * apply plain_of_valid. by apply Hv.
      * apply list_find_Some in Hfind as (Hi & _).
        unfold plain_statuses in Hplain. rewrite Forall_lookup in Hplain. by eapply Hplain.
    + by apply coherent_empty.
Qed.

Lemma cleanup_coherent lib σ :
  plain_statuses (handler.st σ) → coherent (handler.st σ) (handler.ca σ) →
  plain_statuses (handler.st (cleanup lib σ).2)
  ∧ coherent (handler.st (cleanup lib σ).2) (handler.ca (cleanup lib σ).2).
Proof.
  destruct σ as [s c n ev w0]. intros Hplain (HU & HS & HT). split; [done|].
  unfold coherent, cleanup, cache.cleanupExpired_tick, cache.set_entries. run_handler.
  cbn [cache.entries].
  split_and!; intros *; rewrite map_lookup_filter_Some; intros [He _]; eauto.
Qed.

Lemma run_coherent lib xs σ :
  plain_statuses (handler.st σ) → coherent (handler.st σ) (handler.ca σ) →
  plain_statuses (handler.st (run lib xs σ))
  ∧ coherent (handler.st (run lib xs σ)) (handler.ca (run lib xs σ)).
Proof.
  revert σ. induction xs as [|x xs IH]; intros σ Hplain Hcoh; [done|].
  cbn [run fold_left]. apply IH; destruct x as [rt r|]; cbn [run_step];
    first [by apply serve_coherent | by apply cleanup_coherent].
Qed.

(** A [GET] of a listing route is answered with status 200 and the
    listing that the store gives at that moment, whether it comes from the
    cache or not, after any run of requests and clean-up ticks that
    started with a cache whose entries were current (an empty one, say) and
    a store without [':'] in a status.  The request itself leaves the
    store as it is. *)
Theorem listings_are_never_stale (lib : Lib) (xs : list step) (σ : handler.state)
    (rt : handler.route) (r : handler.Request) (key : string) (v : handler.value) :
  plain_statuses (handler.st σ) →
  coherent (handler.st σ) (handler.ca σ) →
  handler.Method r = "GET" →
  listing rt r (handler.st (run lib xs σ)) = Some (key, v) →
  handler.Code (handler.w (handler.serve lib rt r (run lib xs σ))) = Some handler.StatusOK
  ∧ handler.Body (handler.w (handler.serve lib rt r (run lib xs σ))) = [handler.JSON v]
  ∧ handler.st (handler.serve lib rt r (run lib xs σ)) = handler.st (run lib xs σ).
Proof.
  intros Hplain Hcoh HG Hl.
  destruct (run_coherent lib xs σ Hplain Hcoh) as [Hplain' (HU & HS & HT)].
  destruct (serve_outcome lib rt r (run lib xs σ))
    as [code tr _ _ _ _ _ _ Hnone
       |key' v' e _ Hl' He Hst _ _ Hcode Hbody
       |key' v' e _ Hl' He Hst _ _ Hcode Hbody
       |req _ HP _ _ _ _ _ _
       |req _ HP _ _ _ _ _ _ _
       |id req _ HP _ _ _ _ _ _ _ _]; try congruence.
  - rewrite Hnone in Hl by done. discriminate.
  - rewrite Hl in Hl'. injection Hl' as <- <-.
    split_and!; [done| |done]. rewrite Hbody. do 2 f_equal.
    destruct rt; cbn in Hl; try discriminate; injection Hl as <- <-; eauto.
  - rewrite Hl in Hl'. injection Hl' as <- <-. done.
Qed.

Lemma listings_are_never_stale_witness :
  handler.Body
    (handler.w
       (handler.serve sample.lib handler.api_users (sample.GET "/api/users")
          (run sample.lib
             [request handler.api_users (sample.GET "/api/users");
              request handler.api_users (sample.POST "/api/users");
              tick]
             sample.start)))
  = [handler.JSON
       (handler.UsersResponse
          (store.users store.defaultStore
           ++ [User.mk 4 "Alice Cooper" "alice@example.com" "manager"]) 4)].
Proof.
  refine (proj1 (proj2 (listings_are_never_stale sample.lib
                          [request handler.api_users (sample.GET "/api/users");
                           request handler.api_users (sample.POST "/api/users");
                           tick]
                          sample.start handler.api_users (sample.GET "/api/users")
                          cache.UsersKey _ _ _ eq_refl eq_refl))).
  - repeat constructor.
  - by apply coherent_empty.
Defined.

(** A request that is answered with an error status (400 or above) has
    changed neither the store nor the cache, not even its counters, and
    has started no persistence: all it did to the store was reading. *)
Theorem rejected_requests_change_nothing (lib : Lib) (rt : handler.route)
    (r : handler.Request) (σ : handler.state) (code : Z) :
  handler.Code (handler.w (handler.serve lib rt r σ)) = Some code →
  400 <= code →
  handler.st (handler.serve lib rt r σ) = handler.st σ
  ∧ handler.ca (handler.serve lib rt r σ) = handler.ca σ
  ∧ ∃ tr, handler.evs (handler.serve lib rt r σ) = handler.evs σ ++ tr
          ∧ Forall (λ e, e = RLock ∨ e = RUnlock) tr.
Proof.
  intros Hcode Hge.
  destruct (serve_outcome lib rt r σ)
    as [code' tr Hst Hca Hevs Htr _ _ _
       |key' v' e _ _ _ _ _ _ Hc _
       |key' v' e _ _ _ _ _ _ Hc _
       |req _ _ _ _ _ _ _ Hc
       |req _ _ _ _ _ _ _ _ Hc
       |id req _ _ _ _ _ _ _ _ _ Hc];
    try (rewrite Hc in Hcode; injection Hcode as <-; by vm_compute in Hge).
  eauto.
Qed.

Lemma rejected_requests_change_nothing_witness :
  handler.st (handler.serve sample.lib handler.api_tasks (sample.POST "/api/tasks")
                sample.start)
  = store.defaultStore.
Proof.
  refine (proj1 (rejected_requests_change_nothing sample.lib handler.api_tasks
                   (sample.POST "/api/tasks") sample.start 400 eq_refl _)).
  by vm_compute.
Defined.

(** A [POST] or [PUT] that is answered with a status below 400 takes the
    store's write lock once and starts the persistence goroutine once,
    while the lock is held, after some reading; every other request only
    reads the store, starts no goroutine and leaves the store as it is.  So
    the store changes only in a request that also starts [persistAsync]. *)
Theorem writes_persist_and_nothing_else (lib : Lib) (rt : handler.route)
    (r : handler.Request) (σ : handler.state) :
  ∃ tr code,
    handler.evs (handler.serve lib rt r σ) = handler.evs σ ++ tr
    ∧ handler.Code (handler.w (handler.serve lib rt r σ)) = Some code
    ∧ ((handler.Method r = "POST" ∨ handler.Method r = "PUT") ∧ code < 400 →
       ∃ pre, tr = pre ++ [Lock; Go go_persistAsync; Unlock]
              ∧ Forall (λ e, e = RLock ∨ e = RUnlock) pre)
    ∧ (¬ ((handler.Method r = "POST" ∨ handler.Method r = "PUT") ∧ code < 400) →
       Forall (λ e, e = RLock ∨ e = RUnlock) tr
       ∧ handler.st (handler.serve lib rt r σ) = handler.st σ).
Proof.
  destruct (serve_outcome lib rt r σ)
    as [code tr Hst Hca Hevs Htr Hcode Hwr _
       |key' v' e HG _ _ Hst _ Hevs Hcode _
       |key' v' e HG _ _ Hst _ Hevs Hcode _
       |req _ HP _ _ _ _ Hevs Hcode
       |req _ HP _ _ _ _ _ Hevs Hcode
       |id req _ HP _ _ _ _ _ _ (tr & Hevs & Htr) Hcode].
  - exists tr, code. split_and!; try done.
    intros [Hm Hlt]. apply Hwr in Hm. lia.
  - exists [], handler.StatusOK. rewrite app_nil_r. split_and!; try done.
    intros [[?|?] _]; congruence.
  - exists [RLock; RUnlock], handler.StatusOK. split_and!; try done.
    + intros [[?|?] _]; congruence.
    + intros _. split; [apply only_read_locks_2|done].
  - exists [RLock; RUnlock; Lock; Go go_persistAsync; Unlock], handler.StatusCreated.
    split_and!; try done.
    + intros _. exists [RLock; RUnlock]. split; [done|apply only_read_locks_2].
    + intros Hn. destruct Hn. split; [by left|by vm_compute].
  - exists [RLock; RUnlock; Lock; Go go_persistAsync; Unlock], handler.StatusCreated.
    split_and!; try done.
    + intros _. exists [RLock; RUnlock]. split; [done|apply only_read_locks_2].
    + intros Hn. destruct Hn. split; [by left|by vm_compute].
  - exists (tr ++ [Lock; Go go_persistAsync; Unlock]), handler.StatusOK.
    split_and!; try done.
    + intros _. by exists tr.
    + intros Hn. destruct Hn. split; [by right|by vm_compute].
Qed.

(** ** What validation keeps *)




Lemma string_append_assoc (a b c : string) : (a +:+ b) +:+ c = a +:+ b +:+ c.
Proof.
  induction a as [|x a IH]; [done|].
  change (String x ((a +:+ b) +:+ c) = String x (a +:+ b +:+ c)). by rewrite IH.
Qed.

Lemma GetTasks_colon_userID (status userID : string) (s : store.Store) :
  has_colon userID = true → store.result (store.GetTasks status userID s) = [].
Proof.
  intros Hc. rewrite GetTasks_result.
  induction (store.tasks s) as [|t ts IH]; [done|].
  rewrite filter_cons_False; [exact IH|].
  intros [_ [->|Hu]]; [discriminate|]. by rewrite Atoi_colon in Hu.
Qed.

(** ** A status with a [':']

    Two task listings can share a cache key.  With a miss for the filters
    [a] and [b:u], the empty listing is cached (no user identifier holds a
    [':']); a listing for the status [a:b] and the user [u] asked for
    before that entry expires is answered with it, whatever the store
    holds. *)
Theorem colliding_filters_share_the_cached_answer (lib : Lib) (σ : handler.state)
    (r1 r2 : handler.Request) (a b u : string) :
  handler.Method r1 = "GET" → handler.Method r2 = "GET" →
  handler.Query r1 "status" = a → handler.Query r1 "userId" = b +:+ ":" +:+ u →
  handler.Query r2 "status" = a +:+ ":" +:+ b → handler.Query r2 "userId" = u →
  cache.entries (handler.ca σ) !! cache.TasksKey a (b +:+ ":" +:+ u) = None →
  clock lib (S (S (handler.reads σ)))
  <= clock lib (S (handler.reads σ)) + cache.ttl (handler.ca σ) →
  handler.Body
    (handler.w (handler.serve lib handler.api_tasks r2
                  (handler.serve lib handler.api_tasks r1 σ)))
  = [handler.JSON (handler.TasksResponse [] 0)].
Proof.
  intros HG1 HG2 Hs1 Hu1 Hs2 Hu2 Hmiss Hclock.
  assert (Hkey : cache.TasksKey (a +:+ ":" +:+ b) u = cache.TasksKey a (b +:+ ":" +:+ u)).
  { unfold cache.TasksKey. by rewrite !string_append_assoc. }
  destruct σ as [s c n ev w0], r1 as [m1 p1 q1 b1], r2 as [m2 p2 q2 b2].
  cbn [handler.ca handler.reads handler.Method handler.Query] in *. subst m1 m2.
  destruct (handler.serve lib handler.api_tasks _ (handler.mkState s c n ev w0))
    as [s1 c1 n1 ev1 w1] eqn:H1.
  revert H1. run_handler. cbv [handler.Method handler.Query].
  rewrite !String.eqb_refl, Hs1, Hu1, Hs2, Hu2, Hkey.
  unfold cache.Get. rewrite Hmiss. run_handler.
  rewrite GetTasks_eq. run_handler. intros [= <- <- <- _ _].
  unfold cache.Set_, cache.set_entries, cache.add_miss. cbn [cache.entries cache.ttl].
  rewrite lookup_insert_eq. cbn [cache.ExpiresAt cache.Data].
  unfold cache.After, cache.Add.
  destruct (Z.gtb_spec (clock lib (S (S n))) (clock lib (S n) + cache.ttl c)); [lia|].
  run_handler.
  rewrite (GetTasks_colon_userID a (b +:+ ":" +:+ u) s) by apply has_colon_app.
  reflexivity.
Qed.

Lemma colliding_filters_share_the_cached_answer_witness :
  store.result (store.GetTasks "a:b" "1" (handler.st sample.odd))
  = [Task.mk 1 "Odd one" "a:b" 1]
  ∧ handler.Body
      (handler.w (handler.serve sample.lib handler.api_tasks (sample.GET_tasks "a:b" "1")
                    (handler.serve sample.lib handler.api_tasks (sample.GET_tasks "a" "b:1")
                       sample.odd)))
    = [handler.JSON (handler.TasksResponse [] 0)].
Proof.
  split; [reflexivity|].
  apply (colliding_filters_share_the_cached_answer sample.lib sample.odd
           (sample.GET_tasks "a" "b:1") (sample.GET_tasks "a:b" "1") "a" "b" "1");
    try reflexivity.
  by vm_compute.
Defined.
